(** * The CRUD request handler of the serverless blog API

    The repository declares a REST API, a table [blogdb] keyed by the string
    attribute [id], and a Lambda function whose [handler] routes a request
    descriptor to one of four commands of the table's document client.

    This development embeds [handler] (the variant written against
    [@aws-sdk/lib-dynamodb], routes under [/posts]) together with the
    platform functions it calls ([JSON.parse], [JSON.stringify], template
    literals, property access), and proves the properties the specification
    states about it. *)

From Stdlib Require Import ZArith Ascii String.
From stdpp Require Import base decidable option list strings pretty gmap fin_maps.

#[local] Set Warnings "-register-all".
Local Open Scope Z_scope.
Local Open Scope string_scope.

(** ** JavaScript values *)

Module Js.

(** A number is an IEEE 754 double.  A finite one is kept as the decimal
    [mant * 10 ^ expo] whose digits are the shortest that read back as the
    same double, which is also what [Number::toString] prints; the two
    zeros are one value here, since nothing this program does tells them
    apart ([String(-0)] and [JSON.stringify(-0)] are both [0]).  [NaN] is
    left out: [JSON.parse] never yields it and the handlers do no
    arithmetic. *)
Inductive number :=
  | Number (mant expo : Z)
  | Infinity (negative : bool).

(** An object is its list of own enumerable properties in enumeration
    order; property names are unique in every object built by [obj_set]. *)
Inductive value :=
  | undefined
  | null
  | JBool (b : bool)
  | JNum (n : number)
  | JStr (s : string)
  | JArr (elems : list value)
  | JObj (props : list (string * value)).

Definition is_undefined (v : value) : bool :=
  match v with undefined => true | _ => false end.

Definition is_string (v : value) : bool :=
  match v with JStr _ => true | _ => false end.

(** *** Doubles

    The double nearest to a decimal, computed exactly on integers: a
    positive finite double is [M * 2 ^ E] with [M < 2 ^ 53] and
    [-1074 ≤ E ≤ 971], and [2 ^ 52 ≤ M] unless [E = -1074]. *)

Inductive double := DZero | DFinite (M E : Z) | DInfinity.

#[global] Instance double_eq_dec : EqDecision double.
Proof. solve_decision. Defined.

Definition decimal_digits (m : Z) : Z :=
  Z.of_nat (String.length (pretty (Z.abs m))).

(** [m * base ^ e] as a fraction. *)
Definition fraction (base m e : Z) : Z * Z :=
  if decide (0 ≤ e)%Z then (m * base ^ e, 1) else (m, base ^ (- e)).

(** The fraction [num / den] divided by [2 ^ E]. *)
Definition scaled (num den E : Z) : Z * Z :=
  if decide (0 ≤ E)%Z then (num, den * 2 ^ E) else (num * 2 ^ (- E), den).

(** Round to nearest, ties to even. *)
Definition round_half_even (num den : Z) : Z :=
  let q := num / den in
  let r := num mod den in
  if decide (2 * r < den)%Z then q
  else if decide (den < 2 * r)%Z then q + 1
  else if Z.even q then q else q + 1.

(** The double nearest to [m * 10 ^ e], for [0 ≤ m].  A decimal with more
    than 310 digits before the point is beyond every double, one with more
    than 330 zeros after it is below half the least one. *)
Definition nearest_double (m e : Z) : double :=
  if decide (m ≤ 0)%Z then DZero else
  let n := decimal_digits m + e in
  if decide (310 < n)%Z then DInfinity
  else if decide (n < -330)%Z then DZero
  else
    let '(num, den) := fraction 10 m e in
    let b := Z.log2 num - Z.log2 den in
    let '(n1, d1) := scaled num den b in
    let lg := if decide (d1 ≤ n1)%Z then b else b - 1 in
    let E := Z.max (lg - 52) (-1074) in
    let '(n2, d2) := scaled num den E in
    let M := round_half_even n2 d2 in
    if decide (M = 0) then DZero
    else
      let '(M', E') := if decide (M = 2 ^ 53) then (2 ^ 52, E + 1) else (M, E) in
      if decide (971 < E')%Z then DInfinity else DFinite M' E'.

(** [10 ^ p ≤ xn / xd] *)
Definition ge_pow10 (p xn xd : Z) : bool :=
  if decide (0 ≤ p)%Z then bool_decide (10 ^ p * xd ≤ xn)%Z
  else bool_decide (xd ≤ xn * 10 ^ (- p))%Z.

(** The [n] with [10 ^ (n - 1) ≤ xn / xd < 10 ^ n], found around the
    estimate that the binary logarithm gives. *)
Definition point (xn xd : Z) : Z :=
  let g := (Z.log2 xn - Z.log2 xd) * 30103 / 100000 in
  if ge_pow10 (g + 2) xn xd then g + 3
  else if ge_pow10 (g + 1) xn xd then g + 2
  else if ge_pow10 g xn xd then g + 1
  else if ge_pow10 (g - 1) xn xd then g
  else g - 1.

(** The decimal [s * 10 ^ (n - k)] of [k] digits that reads back as the
    double [M * 2 ^ E = xn / xd], if there is one: of the two [k]-digit
    decimals around the double, the one that reads back; the closer when
    both do. *)
Definition candidate (M E xn xd n k : Z) : option (Z * Z) :=
  let q := n - k in
  let '(sn, sd) :=
    if decide (0 ≤ q)%Z then (xn, xd * 10 ^ q) else (xn * 10 ^ (- q), xd) in
  let lo := sn / sd in
  let reads_back s := bool_decide (nearest_double s q = DFinite M E) in
  match reads_back lo, reads_back (lo + 1) with
  | true, false => Some (lo, q)
  | false, true => Some (lo + 1, q)
  | true, true =>
      match Z.compare (2 * sn) ((2 * lo + 1) * sd) with
      | Lt => Some (lo, q)
      | Gt => Some (lo + 1, q)
      | Eq => Some (if Z.even lo then lo else lo + 1, q)
      end
  | false, false => None
  end.

Fixpoint shortest_from (M E xn xd n : Z) (ks : list Z) : Z * Z :=
  match ks with
  | [] => (0, 0)
  | k :: ks' =>
      match candidate M E xn xd n k with
      | Some r => r
      | None => shortest_from M E xn xd n ks'
      end
  end.

(** The shortest decimal that reads back as the double; seventeen digits
    always suffice. *)
Definition shortest (M E : Z) : Z * Z :=
  let '(xn, xd) := fraction 2 M E in
  shortest_from M E xn xd (point xn xd) (Z.of_nat <$> seq 1 17).

Fixpoint strip10 (fuel : nat) (s q : Z) : Z * Z :=
  match fuel with
  | O => (s, q)
  | S f =>
      if decide (s ≠ 0 ∧ s mod 10 = 0) then strip10 f (s / 10) (q + 1) else (s, q)
  end.

(** The number that the decimal literal [(-1)^neg * m * 10 ^ e] denotes. *)
Definition number_of_decimal (neg : bool) (m e : Z) : number :=
  match nearest_double m e with
  | DZero => Number 0 0
  | DInfinity => Infinity neg
  | DFinite M E =>
      let '(s, q) := shortest M E in
      let '(s', q') := strip10 20 s q in
      Number (if neg then - s' else s') q'
  end.

(** [Number.MAX_SAFE_INTEGER] *)
Definition MAX_SAFE_INTEGER : Z := 2 ^ 53 - 1.

(** [x > y] and [x < y] for a number and an integer. *)
Definition greater_than (x : number) (y : Z) : bool :=
  match x with
  | Infinity neg => negb neg
  | Number m e =>
      let '(num, den) := fraction 10 m e in bool_decide (y * den < num)%Z
  end.

Definition less_than (x : number) (y : Z) : bool :=
  match x with
  | Infinity neg => neg
  | Number m e =>
      let '(num, den) := fraction 10 m e in bool_decide (num < y * den)%Z
  end.

(** *** Number::toString, radix 10 *)

Fixpoint strip_zeros_rev (ds : list ascii) (zs : Z) : list ascii * Z :=
  match ds with
  | "0"%char :: ds' => strip_zeros_rev ds' (zs + 1)
  | _ => (ds, zs)
  end.

Definition zeros (n : Z) : string :=
  string_of_list_ascii (replicate (Z.to_nat n) "0"%char).

(** [digits_of m e] is the digit string [s] without trailing zeros and the
    exponent [e'] with [|m| * 10 ^ e = s * 10 ^ e']. *)
Definition digits_of (m e : Z) : list ascii * Z :=
  let ds := list_ascii_of_string (pretty (Z.abs m)) in
  let '(r, zs) := strip_zeros_rev (rev ds) 0 in
  (rev r, e + zs).

Definition Number_toString (x : number) : string :=
  match x with
  | Infinity neg => if neg then "-Infinity" else "Infinity"
  | Number m e =>
      if decide (m = 0) then "0" else
      let sign := if decide (m < 0) then "-" else "" in
      let '(ds, e) := digits_of m e in
      let k := Z.of_nat (length ds) in
      let n := k + e in
      sign +:+
      (if decide (k ≤ n ∧ n ≤ 21)%Z then
         string_of_list_ascii ds +:+ zeros (n - k)
       else if decide (0 < n ∧ n ≤ 21)%Z then
         string_of_list_ascii (take (Z.to_nat n) ds) +:+ "." +:+
         string_of_list_ascii (drop (Z.to_nat n) ds)
       else if decide (-6 < n ∧ n ≤ 0)%Z then
         "0." +:+ zeros (- n) +:+ string_of_list_ascii ds
       else
         let esign := if decide (n - 1 < 0) then "-" else "+" in
         let etext := esign +:+ pretty (Z.abs (n - 1)) in
         match ds with
         | [d] => String d "e" +:+ etext
         | d :: rest => String d "." +:+ string_of_list_ascii rest +:+ "e" +:+ etext
         | [] => "0"
         end)
  end.

(** *** ToString, as applied by template literals and string concatenation *)

Fixpoint join (sep : string) (parts : list string) : string :=
  match parts with
  | [] => ""
  | [p] => p
  | p :: rest => p +:+ sep +:+ join sep rest
  end.

Fixpoint ToString (v : value) : string :=
  match v with
  | undefined => "undefined"
  | null => "null"
  | JBool true => "true"
  | JBool false => "false"
  | JNum n => Number_toString n
  | JStr s => s
  | JArr elems =>
      (* Array.prototype.join: undefined and null elements print as empty *)
      join "," (map (fun e => match e with
                              | undefined | null => ""
                              | _ => ToString e
                              end) elems)
  | JObj _ => "[object Object]"
  end.

(** *** Property access [v.name]

    Only names that no built-in prototype defines are looked up in this
    program ([id], [postTitle], [postDescription], [Item], [Items]), so a
    primitive or an array answers [undefined] and an object answers its own
    property.  Reading a property of [undefined] or [null] throws. *)
Record Error := mkError { name : string; message : string }.

Definition TypeError (msg : string) : Error := mkError "TypeError" msg.
Definition SyntaxError (msg : string) : Error := mkError "SyntaxError" msg.

Fixpoint assoc {A} (k : string) (l : list (string * A)) : option A :=
  match l with
  | [] => None
  | (k', v) :: l' => if String.eqb k' k then Some v else assoc k l'
  end.

Definition own (k : string) (props : list (string * value)) : value :=
  default undefined (assoc k props).

Definition property (v : value) (k : string) : value :=
  match v with
  | JObj props => own k props
  | _ => undefined
  end.

Definition get_prop (v : value) (k : string) : Error + value :=
  match v with
  | undefined =>
      inl (TypeError ("Cannot read properties of undefined (reading '" +:+ k +:+ "')"))
  | null =>
      inl (TypeError ("Cannot read properties of null (reading '" +:+ k +:+ "')"))
  | _ => inr (property v k)
  end.

(** *** JSON.stringify

    [serialize] is SerializeJSONProperty for a value that is not
    [undefined]: inside an array [undefined] prints as [null], inside an
    object a property whose value is [undefined] is left out; a number
    that is not finite prints as [null].  At the top level
    [JSON.stringify(undefined)] is [undefined], not a string. *)
Definition dquote : ascii := "034"%char.
Definition quoted (s : string) : string := String dquote (s +:+ String dquote "").

Definition hex_digit (n : N) : ascii :=
  default "0"%char (list_ascii_of_string "0123456789abcdef" !! N.to_nat n).

Definition quote_char (c : ascii) : string :=
  let n := N_of_ascii c in
  if decide (n = 34)%N then String "\" (String dquote "")
  else if decide (n = 92)%N then "\\"
  else if decide (n = 8)%N then "\b"
  else if decide (n = 12)%N then "\f"
  else if decide (n = 10)%N then "\n"
  else if decide (n = 13)%N then "\r"
  else if decide (n = 9)%N then "\t"
  else if decide (n < 32)%N then
    "\u00" +:+ String (hex_digit (n / 16)) (String (hex_digit (n mod 16)) "")
  else String c "".

Fixpoint quote_chars (s : string) : string :=
  match s with
  | EmptyString => ""
  | String c rest => quote_char c +:+ quote_chars rest
  end.

Definition QuoteJSONString (s : string) : string := quoted (quote_chars s).

Fixpoint serialize (v : value) : string :=
  match v with
  | undefined | null => "null"
  | JBool true => "true"
  | JBool false => "false"
  | JNum (Infinity _) => "null"
  | JNum n => Number_toString n
  | JStr s => QuoteJSONString s
  | JArr elems => "[" +:+ join "," (map serialize elems) +:+ "]"
  | JObj props =>
      "{" +:+
      join "," (flat_map (fun kv => let '(k, x) := kv in
                           match x with
                           | undefined => []
                           | _ => [QuoteJSONString k +:+ ":" +:+ serialize x]
                           end) props) +:+
      "}"
  end.

Definition JSON_stringify (v : value) : value :=
  match v with
  | undefined => undefined
  | _ => JStr (serialize v)
  end.

(** *** Defining a property, in enumeration order

    Integer-like names enumerate first, ascending; the other names follow in
    the order they were first defined.  Redefining a name keeps its place. *)
Fixpoint digits_value (s : string) (acc : N) : option N :=
  match s with
  | EmptyString => Some acc
  | String c rest =>
      let n := N_of_ascii c in
      if decide (48 ≤ n ∧ n ≤ 57)%N then digits_value rest (acc * 10 + (n - 48))
      else None
  end.

Definition array_index (k : string) : option N :=
  match k with
  | EmptyString => None
  | _ =>
      n ← digits_value k 0;
      if decide (pretty n = k ∧ (n < 4294967295)%N) then Some n else None
  end.

Fixpoint replace_prop (k : string) (v : value) (props : list (string * value))
    : list (string * value) :=
  match props with
  | [] => []
  | (k', v') :: rest =>
      if String.eqb k' k then (k', v) :: rest else (k', v') :: replace_prop k v rest
  end.

Fixpoint insert_index (i : N) (k : string) (v : value) (props : list (string * value))
    : list (string * value) :=
  match props with
  | [] => [(k, v)]
  | (k', v') :: rest =>
      match array_index k' with
      | Some j => if decide (j < i)%N then (k', v') :: insert_index i k v rest
                  else (k, v) :: props
      | None => (k, v) :: props
      end
  end.

Definition obj_set (k : string) (v : value) (props : list (string * value))
    : list (string * value) :=
  match assoc k props with
  | Some _ => replace_prop k v props
  | None =>
      match array_index k with
      | Some i => insert_index i k v props
      | None => props ++ [(k, v)]
      end
  end.

(** An object literal [{ k1: v1, ..., kn: vn }]. *)
Definition object_literal (fields : list (string * value)) : value :=
  JObj (foldl (fun props kv => obj_set kv.1 kv.2 props) [] fields).

(** *** JSON.parse

    The parser is a pushdown automaton run over the characters of the text:
    a lexer state for the token being read and a stack of the containers
    that are still open.  It accepts the JSON grammar of ECMA-404.  Its
    error messages have the form V8 gives them on the Node.js 16 and 18
    runtimes the stacks deploy to; positions count bytes of the UTF-8
    text. *)
Inductive num_state :=
  NMinus | NZero | NInt | NDot | NFrac | NExpMark | NExpSign | NExp.

Record num_acc := NumAcc {
  nneg : bool; nmant : Z; nfrac : Z; neneg : bool; nexp : Z }.

Inductive lexer :=
  | Idle
  | InString (rev_acc : list ascii) (high : option N)
  | InEscape (rev_acc : list ascii) (high : option N)
  | InUnicode (rev_acc : list ascii) (high : option N) (hex : list N)
  | InNumber (st : num_state) (acc : num_acc)
  | InLiteral (rest : list ascii) (v : value).

Inductive arr_state := ArrOpen | ArrValue | ArrComma.
Inductive obj_state :=
  ObjOpen | ObjKey (k : string) | ObjColon (k : string) | ObjValue | ObjComma.

Inductive frame :=
  | FArr (rev_elems : list value) (st : arr_state)
  | FObj (props : list (string * value)) (st : obj_state).

Record pstate := PState {
  lex : lexer; stack : list frame; result : option value }.

Definition unexpected (c : ascii) (pos : N) : Error :=
  let n := N_of_ascii c in
  let what :=
    if decide (n = 34)%N then "string"
    else if decide (n = 45 ∨ (48 ≤ n ∧ n ≤ 57))%N then "number"
    else "token " +:+ String c "" in
  SyntaxError ("Unexpected " +:+ what +:+ " in JSON at position " +:+ pretty pos).

Definition unexpected_end : Error := SyntaxError "Unexpected end of JSON input".

Definition expects_value (stk : list frame) (res : option value) : bool :=
  match stk with
  | [] => bool_decide (res = None)
  | FArr _ (ArrOpen | ArrComma) :: _ => true
  | FObj _ (ObjColon _) :: _ => true
  | _ => false
  end.

Definition expects_key (stk : list frame) : bool :=
  match stk with
  | FObj _ (ObjOpen | ObjComma) :: _ => true
  | _ => false
  end.

Definition push_value (v : value) (stk : list frame) (res : option value)
    : option (list frame * option value) :=
  match stk with
  | [] => match res with None => Some ([], Some v) | Some _ => None end
  | FArr es (ArrOpen | ArrComma) :: stk' => Some (FArr (v :: es) ArrValue :: stk', res)
  | FObj ps (ObjColon k) :: stk' => Some (FObj (obj_set k v ps) ObjValue :: stk', res)
  | _ => None
  end.

Definition push_string (s : string) (stk : list frame) (res : option value)
    : option (list frame * option value) :=
  match stk with
  | FObj ps (ObjOpen | ObjComma) :: stk' => Some (FObj ps (ObjKey s) :: stk', res)
  | _ => push_value (JStr s) stk res
  end.

Definition resume (c : ascii) (pos : N) (o : option (list frame * option value))
    : Error + pstate :=
  match o with
  | Some (stk, res) => inr (PState Idle stk res)
  | None => inl (unexpected c pos)
  end.

(** UTF-8 bytes of a code point, last byte first; a lone surrogate is
    written like any other three-byte code point. *)
Definition utf8_rev (u : N) : list ascii :=
  let byte n := ascii_of_N n in
  (if decide (u < 128) then [byte u]
   else if decide (u < 2048) then
     [byte (128 + u mod 64); byte (192 + u / 64)]
   else if decide (u < 65536) then
     [byte (128 + u mod 64); byte (128 + (u / 64) mod 64); byte (224 + u / 4096)]
   else
     [byte (128 + u mod 64); byte (128 + (u / 64) mod 64);
      byte (128 + (u / 4096) mod 64); byte (240 + u / 262144)])%N.

Definition flush (high : option N) (rev_acc : list ascii) : list ascii :=
  match high with
  | Some h => utf8_rev h ++ rev_acc
  | None => rev_acc
  end.

Definition hex_value (c : ascii) : option N :=
  let n := N_of_ascii c in
  if decide (48 ≤ n ∧ n ≤ 57)%N then Some (n - 48)%N
  else if decide (97 ≤ n ∧ n ≤ 102)%N then Some (n - 87)%N
  else if decide (65 ≤ n ∧ n ≤ 70)%N then Some (n - 55)%N
  else None.

Definition digit_value (c : ascii) : option Z :=
  let n := N_of_ascii c in
  if decide (48 ≤ n ∧ n ≤ 57)%N then Some (Z.of_N n - 48) else None.

Definition number_of (a : num_acc) : value :=
  JNum (number_of_decimal (nneg a) (nmant a)
          ((if neneg a then - nexp a else nexp a) - nfrac a)).

Definition is_space (c : ascii) : bool :=
  let n := N_of_ascii c in
  bool_decide (n = 32 ∨ n = 9 ∨ n = 10 ∨ n = 13)%N.

Definition step_idle (stk : list frame) (res : option value) (pos : N) (c : ascii)
    : Error + pstate :=
  let fail := inl (unexpected c pos) in
  let start lx stk' := if expects_value stk res then inr (PState lx stk' res) else fail in
  if is_space c then inr (PState Idle stk res) else
  match c with
  | "{"%char => start Idle (FObj [] ObjOpen :: stk)
  | "["%char => start Idle (FArr [] ArrOpen :: stk)
  | "}"%char =>
      match stk with
      | FObj ps (ObjOpen | ObjValue) :: stk' => resume c pos (push_value (JObj ps) stk' res)
      | _ => fail
      end
  | "]"%char =>
      match stk with
      | FArr es (ArrOpen | ArrValue) :: stk' =>
          resume c pos (push_value (JArr (rev es)) stk' res)
      | _ => fail
      end
  | ","%char =>
      match stk with
      | FArr es ArrValue :: stk' => inr (PState Idle (FArr es ArrComma :: stk') res)
      | FObj ps ObjValue :: stk' => inr (PState Idle (FObj ps ObjComma :: stk') res)
      | _ => fail
      end
  | ":"%char =>
      match stk with
      | FObj ps (ObjKey k) :: stk' => inr (PState Idle (FObj ps (ObjColon k) :: stk') res)
      | _ => fail
      end
  | "034"%char =>
      if expects_value stk res || expects_key stk
      then inr (PState (InString [] None) stk res) else fail
  | "-"%char => start (InNumber NMinus (NumAcc true 0 0 false 0)) stk
  | "0"%char => start (InNumber NZero (NumAcc false 0 0 false 0)) stk
  | "t"%char => start (InLiteral (list_ascii_of_string "rue") (JBool true)) stk
  | "f"%char => start (InLiteral (list_ascii_of_string "alse") (JBool false)) stk
  | "n"%char => start (InLiteral (list_ascii_of_string "ull") null) stk
  | _ =>
      match digit_value c with
      | Some d => start (InNumber NInt (NumAcc false d 0 false 0)) stk
      | None => fail
      end
  end.

Definition step_string (acc : list ascii) (high : option N)
    (stk : list frame) (res : option value) (pos : N) (c : ascii) : Error + pstate :=
  match c with
  | "034"%char =>
      resume c pos (push_string (string_of_list_ascii (rev (flush high acc))) stk res)
  | "\"%char => inr (PState (InEscape acc high) stk res)
  | _ =>
      if decide (N_of_ascii c < 32)%N then inl (unexpected c pos)
      else inr (PState (InString (c :: flush high acc) None) stk res)
  end.

Definition step_escape (acc : list ascii) (high : option N)
    (stk : list frame) (res : option value) (pos : N) (c : ascii) : Error + pstate :=
  let plain x := inr (PState (InString (x :: flush high acc) None) stk res) in
  match c with
  | "034"%char | "\"%char | "/"%char => plain c
  | "b"%char => plain "008"%char
  | "f"%char => plain "012"%char
  | "n"%char => plain "010"%char
  | "r"%char => plain "013"%char
  | "t"%char => plain "009"%char
  | "u"%char => inr (PState (InUnicode acc high []) stk res)
  | _ => inl (unexpected c pos)
  end.

Definition code_unit (hex : list N) : N :=
  foldl (fun u h => u * 16 + h)%N 0%N hex.

Definition step_unicode (acc : list ascii) (high : option N) (hex : list N)
    (stk : list frame) (res : option value) (pos : N) (c : ascii) : Error + pstate :=
  match hex_value c with
  | None => inl (unexpected c pos)
  | Some h =>
      let hex' := (hex ++ [h])%list in
      if decide (length hex' < 4)%nat then inr (PState (InUnicode acc high hex') stk res)
      else
        let u := code_unit hex' in
        let low := bool_decide (56320 ≤ u ∧ u ≤ 57343)%N in
        match high with
        | Some hi =>
            if low then
              let cp := (65536 + (hi - 55296) * 1024 + (u - 56320))%N in
              inr (PState (InString (utf8_rev cp ++ acc) None) stk res)
            else if bool_decide (55296 ≤ u ∧ u ≤ 56319)%N then
              inr (PState (InString (flush high acc) (Some u)) stk res)
            else inr (PState (InString (utf8_rev u ++ flush high acc) None) stk res)
        | None =>
            if bool_decide (55296 ≤ u ∧ u ≤ 56319)%N then
              inr (PState (InString acc (Some u)) stk res)
            else inr (PState (InString (utf8_rev u ++ acc) None) stk res)
        end
  end.

Definition step_literal (rest : list ascii) (v : value)
    (stk : list frame) (res : option value) (pos : N) (c : ascii) : Error + pstate :=
  match rest with
  | r :: rest' =>
      if decide (c = r) then
        match rest' with
        | [] => resume c pos (push_value v stk res)
        | _ => inr (PState (InLiteral rest' v) stk res)
        end
      else inl (unexpected c pos)
  | [] => inl (unexpected c pos)
  end.

Definition is_exp_mark (c : ascii) : bool :=
  bool_decide (c = "e"%char ∨ c = "E"%char).

Definition step_number (st : num_state) (a : num_acc)
    (stk : list frame) (res : option value) (pos : N) (c : ascii) : Error + pstate :=
  let go st' a' := inr (PState (InNumber st' a') stk res) in
  let fail := inl (unexpected c pos) in
  let done :=
    match push_value (number_of a) stk res with
    | Some (stk', res') => step_idle stk' res' pos c
    | None => fail
    end in
  let int_digit d := NumAcc (nneg a) (nmant a * 10 + d) (nfrac a) (neneg a) (nexp a) in
  let frac_digit d := NumAcc (nneg a) (nmant a * 10 + d) (nfrac a + 1) (neneg a) (nexp a) in
  let exp_digit d := NumAcc (nneg a) (nmant a) (nfrac a) (neneg a) (nexp a * 10 + d) in
  let exp_minus := NumAcc (nneg a) (nmant a) (nfrac a) true (nexp a) in
  match st with
  | NMinus =>
      match digit_value c with
      | Some 0 => go NZero a
      | Some d => go NInt (int_digit d)
      | None => fail
      end
  | NZero =>
      if decide (c = "."%char) then go NDot a
      else if is_exp_mark c then go NExpMark a
      else done
  | NInt =>
      match digit_value c with
      | Some d => go NInt (int_digit d)
      | None =>
          if decide (c = "."%char) then go NDot a
          else if is_exp_mark c then go NExpMark a
          else done
      end
  | NDot =>
      match digit_value c with
      | Some d => go NFrac (frac_digit d)
      | None => fail
      end
  | NFrac =>
      match digit_value c with
      | Some d => go NFrac (frac_digit d)
      | None => if is_exp_mark c then go NExpMark a else done
      end
  | NExpMark =>
      match digit_value c with
      | Some d => go NExp (exp_digit d)
      | None =>
          if decide (c = "+"%char) then go NExpSign a
          else if decide (c = "-"%char) then go NExpSign exp_minus
          else fail
      end
  | NExpSign =>
      match digit_value c with
      | Some d => go NExp (exp_digit d)
      | None => fail
      end
  | NExp =>
      match digit_value c with
      | Some d => go NExp (exp_digit d)
      | None => done
      end
  end.

Definition step (p : pstate) (pos : N) (c : ascii) : Error + pstate :=
  match lex p with
  | Idle => step_idle (stack p) (result p) pos c
  | InString acc high => step_string acc high (stack p) (result p) pos c
  | InEscape acc high => step_escape acc high (stack p) (result p) pos c
  | InUnicode acc high hex => step_unicode acc high hex (stack p) (result p) pos c
  | InNumber st a => step_number st a (stack p) (result p) pos c
  | InLiteral rest v => step_literal rest v (stack p) (result p) pos c
  end.

(** At the end of the text every container must be closed and the one
    top-level value read. *)
Definition closed (stk : list frame) (res : option value) : Error + value :=
  match stk, res with
  | [], Some v => inr v
  | _, _ => inl unexpected_end
  end.

Definition finish (p : pstate) : Error + value :=
  match lex p with
  | Idle => closed (stack p) (result p)
  | InNumber (NZero | NInt | NFrac | NExp) a =>
      match push_value (number_of a) (stack p) (result p) with
      | Some (stk, res) => closed stk res
      | None => inl unexpected_end
      end
  | _ => inl unexpected_end
  end.

Fixpoint run (p : pstate) (pos : N) (text : string) : Error + value :=
  match text with
  | EmptyString => finish p
  | String c rest =>
      match step p pos c with
      | inl e => inl e
      | inr p' => run p' (pos + 1)%N rest
      end
  end.

Definition JSON_parse (text : string) : Error + value :=
  run (PState Idle [] None) 0%N text.

End Js.

(** ** The document client's commands *)

Module Dynamo.
Import Js.

Inductive Command :=
  | DeleteCommand (TableName : string) (Key : value)
  | GetCommand (TableName : string) (Key : value)
  | ScanCommand (TableName : string)
  | PutCommand (TableName : string) (Item : value).

(** The four kinds of store operation. *)
Inductive Operation := DeleteByKey | GetByKey | ScanAll | PutFullRecord.

Definition operation (cmd : Command) : Operation :=
  match cmd with
  | DeleteCommand _ _ => DeleteByKey
  | GetCommand _ _ => GetByKey
  | ScanCommand _ => ScanAll
  | PutCommand _ _ => PutFullRecord
  end.

(** *** Marshalling

    The document client turns the [Key] or [Item] of a command into
    attribute values before it sends the command, and throws where it
    cannot.  [convertToAttr] gives the error thrown for a value, if any:
    built with its default options, the client refuses a value that is or
    contains [undefined], a number that is not finite, and a number beyond
    the safe integers; it visits the elements of an array and the
    properties of an object in order, so the first offence is reported. *)
Definition undefined_value : Error :=
  mkError "Error"
    "Pass options.removeUndefinedValues=true to remove undefined values from map/array/set.".

Definition special_number (n : number) : Error :=
  mkError "Error"
    ("Special numeric value " +:+ Number_toString n +:+ " is not allowed").

Definition above_safe_integers (n : number) : Error :=
  mkError "Error"
    ("Number " +:+ Number_toString n +:+
     " is greater than Number.MAX_SAFE_INTEGER. Use BigInt.").

Definition below_safe_integers (n : number) : Error :=
  mkError "Error"
    ("Number " +:+ Number_toString n +:+
     " is lesser than Number.MIN_SAFE_INTEGER. Use BigInt.").

Definition convertToNumberAttr (n : number) : option Error :=
  match n with
  | Infinity _ => Some (special_number n)
  | Number _ _ =>
      if greater_than n MAX_SAFE_INTEGER then Some (above_safe_integers n)
      else if less_than n (- MAX_SAFE_INTEGER) then Some (below_safe_integers n)
      else None
  end.

Fixpoint first_error (l : list (option Error)) : option Error :=
  match l with
  | [] => None
  | Some e :: _ => Some e
  | None :: l' => first_error l'
  end.

Fixpoint convertToAttr (v : value) : option Error :=
  match v with
  | undefined => Some undefined_value
  | JNum n => convertToNumberAttr n
  | JArr elems => first_error (map convertToAttr elems)
  | JObj props => first_error (map (fun kv => convertToAttr kv.2) props)
  | _ => None
  end.

Definition marshallable (v : value) : bool :=
  match convertToAttr v with None => true | Some _ => false end.

(** What a command has the client marshal. *)
Definition marshalled (cmd : Command) : option value :=
  match cmd with
  | DeleteCommand _ key | GetCommand _ key => Some key
  | PutCommand _ item => Some item
  | ScanCommand _ => None
  end.

(** [client.send(command)] against an endpoint: a command that cannot be
    marshalled fails in the client and never reaches the endpoint. *)
Definition client {St : Type} (endpoint : Command → St → (Error + value) * St)
    (cmd : Command) (st : St) : (Error + value) * St :=
  match marshalled cmd ≫= convertToAttr with
  | Some e => (inl e, st)
  | None => endpoint cmd st
  end.

End Dynamo.

(** ** What the parser builds

    The invariant of the automaton: the values it holds, finished or
    under construction, are free of [undefined]. *)

Module ParserInvariant.
Import Js.

Fixpoint free_of_undefined (v : value) : bool :=
  match v with
  | undefined => false
  | JArr elems => forallb free_of_undefined elems
  | JObj props => forallb (fun kv => free_of_undefined kv.2) props
  | _ => true
  end.

Definition lexer_ok (l : lexer) : Prop :=
  match l with
  | InLiteral _ v => free_of_undefined v = true
  | _ => True
  end.

Definition frame_ok (f : frame) : Prop :=
  match f with
  | FArr es _ => forallb free_of_undefined es = true
  | FObj ps _ => forallb (fun kv => free_of_undefined kv.2) ps = true
  end.

Fixpoint frames_ok (stk : list frame) : Prop :=
  match stk with
  | [] => True
  | f :: stk' => frame_ok f ∧ frames_ok stk'
  end.

Definition stack_ok (stk : list frame) (res : option value) : Prop :=
  frames_ok stk ∧ ∀ v, res = Some v → free_of_undefined v = true.

Definition pstate_ok (p : pstate) : Prop :=
  lexer_ok (lex p) ∧ stack_ok (stack p) (result p).

End ParserInvariant.

(** ** The request and the response *)

Module Event.
Import Js.

(** The fields of the API Gateway proxy event that [handler] reads.  A
    request without path parameters carries [pathParameters = null], a
    request without a body carries [body = null]. *)
Record t := mk {
  httpMethod : string;
  resource : string;
  pathParameters : option (list (string * string));
  body : option string }.

Definition pathParameters_value (e : t) : value :=
  match pathParameters e with
  | None => null
  | Some ps => JObj (map (fun kv => (kv.1, JStr kv.2)) ps)
  end.

Definition body_value (e : t) : value :=
  match body e with
  | None => null
  | Some text => JStr text
  end.

End Event.

Module Response.
Import Js.

Record t := mk { statusCode : Z; body : value; headers : value }.

End Response.

(** ** Execution of an invocation

    A computation runs on the local variables of [handler], the state of
    the store and a log of the commands handed to [dynamo.send]; it returns
    or throws, and keeps its effects either way.  The log is ghost state:
    the code does not have it, the properties about which operations an
    invocation performs are stated on it. *)

Module Run.
Import Js Dynamo.

Record Locals := mkLocals { body : value; statusCode : Z }.

Section Monad.
Context {St : Type}.

Record State := mkState { locals : Locals; store : St; sent : list Command }.

Inductive Outcome (A : Type) :=
  | Returned (a : A)
  | Thrown (e : Error).
#[global] Arguments Returned {A} a.
#[global] Arguments Thrown {A} e.

Definition M (A : Type) : Type := State → Outcome A * State.

Definition ret {A} (a : A) : M A := fun s => (Returned a, s).

Definition bind {A B} (m : M A) (k : A → M B) : M B :=
  fun s =>
    match m s with
    | (Returned a, s') => k a s'
    | (Thrown e, s') => (Thrown e, s')
    end.

Definition throw {A} (e : Error) : M A := fun s => (Thrown e, s).

(** A platform function that returns or throws. *)
Definition eval {A} (r : Error + A) : M A :=
  match r with
  | inl e => throw e
  | inr a => ret a
  end.

Definition declare (l : Locals) : M unit :=
  fun s => (Returned (), mkState l (store s) (sent s)).

Definition read_locals : M Locals := fun s => (Returned (locals s), s).

Definition read_body : M value := fun s => (Returned (body (locals s)), s).

Definition assign_body (v : value) : M unit :=
  fun s => (Returned (),
            mkState (mkLocals v (statusCode (locals s))) (store s) (sent s)).

Definition assign_statusCode (c : Z) : M unit :=
  fun s => (Returned (),
            mkState (mkLocals (body (locals s)) c) (store s) (sent s)).

(** [try { t } catch (err) { c err } finally { f }]: the finally block
    runs on every path; what it throws replaces the pending outcome. *)
Definition try_catch_finally (t : M unit) (c : Error → M unit) (f : M unit)
    : M unit :=
  fun s =>
    let '(o, s1) :=
      match t s with
      | (Returned u, s') => (Returned u, s')
      | (Thrown e, s') => c e s'
      end in
    match f s1 with
    | (Returned _, s2) => (o, s2)
    | (Thrown e, s2) => (Thrown e, s2)
    end.

(** [await dynamo.send(cmd)]: the command is logged and handed to the
    store, which answers with an output or rejects with an error. *)
Definition dynamo_send (service : Command → St → (Error + value) * St)
    (cmd : Command) : M value :=
  fun s =>
    let '(r, st') := service cmd (store s) in
    let s' := mkState (locals s) st' (sent s ++ [cmd]) in
    match r with
    | inl e => (Thrown e, s')
    | inr out => (Returned out, s')
    end.

End Monad.

#[global] Arguments State St : clear implicits.
#[global] Arguments M St A : clear implicits.

#[global] Instance M_ret {St} : MRet (M St) := @ret St.
#[global] Instance M_bind {St} : MBind (M St) := fun A B k m => bind m k.

End Run.

(** ** The handler *)

Module Handler.
Import Js Dynamo Run.

Definition tableName : string := "blogdb".

Definition headers : value :=
  object_literal
    [("Content-Type", JStr "application/json");
     ("Access-Control-Allow-Origin", JStr "http://localhost:3000");
     ("Access-Control-Allow-Credentials", JBool true)].

(** [event.httpMethod + ' ' + event.resource] *)
Definition routing_key (event : Event.t) : string :=
  Event.httpMethod event +:+ " " +:+ Event.resource event.

Section Handler.
Context {St : Type} (service : Command → St → (Error + value) * St).

(** The [switch] statement in the [try] block.  The cases are compared in
    the order of the source; each one ends in [break]. *)
Definition dispatch (event : Event.t) : M St unit :=
  let key := routing_key event in
  if String.eqb key "DELETE /posts/{id}" then
    id ← eval (get_prop (Event.pathParameters_value event) "id");
    _ ← dynamo_send service (DeleteCommand tableName (object_literal [("id", id)]));
    id' ← eval (get_prop (Event.pathParameters_value event) "id");
    assign_body (JStr ("Deleted item " +:+ ToString id'))
  else if String.eqb key "GET /posts/{id}" then
    id ← eval (get_prop (Event.pathParameters_value event) "id");
    out ← dynamo_send service (GetCommand tableName (object_literal [("id", id)]));
    assign_body out;;
    b ← read_body;
    item ← eval (get_prop b "Item");
    assign_body item
  else if String.eqb key "GET /posts" then
    out ← dynamo_send service (ScanCommand tableName);
    assign_body out;;
    b ← read_body;
    items ← eval (get_prop b "Items");
    assign_body items
  else if String.eqb key "PUT /posts" then
    requestJSON ← eval (JSON_parse (ToString (Event.body_value event)));
    id ← eval (get_prop requestJSON "id");
    postTitle ← eval (get_prop requestJSON "postTitle");
    postDescription ← eval (get_prop requestJSON "postDescription");
    _ ← dynamo_send service (PutCommand tableName
                (object_literal [("id", id);
                                 ("postTitle", postTitle);
                                 ("postDescription", postDescription)]));
    id' ← eval (get_prop requestJSON "id");
    assign_body (JStr ("Put post " +:+ ToString id'))
  else
    throw (mkError "Error" ("Unsupported route: " +:+ quoted key)).

(** [handler]; its second parameter [context] is never read. *)
Definition handler (event : Event.t) : M St Response.t :=
  declare (mkLocals undefined 200);;
  try_catch_finally
    (dispatch event)
    (fun err => assign_statusCode 400;; assign_body (JStr (message err)))
    (b ← read_body; assign_body (JSON_stringify b));;
  l ← read_locals;
  mret (Response.mk (statusCode l) (body l) headers).

(** The state in which the [try] block starts: both locals declared, the
    store and the log as the invocation found them. *)
Definition entry (s : State St) : State St :=
  mkState (mkLocals undefined 200) (store s) (sent s).

(** One invocation on a store in state [st]: the outcome of [handler],
    the store afterwards and the commands sent, in order. *)
Definition invoke (event : Event.t) (st : St)
    : Outcome Response.t * St * list Command :=
  let '(o, s) := handler event (mkState (mkLocals undefined 200) st []) in
  (o, store s, sent s).

End Handler.

(** The response built from a status code and the value [body] holds when
    the [finally] block starts. *)
Definition respond (code : Z) (payload : value) : Response.t :=
  Response.mk code (JSON_stringify payload) headers.

(** The four defined routing keys and the store operation of each, as the
    specification's dispatch table lists them. *)
Definition dispatch_table : list (string * Operation) :=
  [("GET /posts", ScanAll);
   ("GET /posts/{id}", GetByKey);
   ("PUT /posts", PutFullRecord);
   ("DELETE /posts/{id}", DeleteByKey)].

End Handler.

(** ** The table [blogdb]

    Modelled from the spec: the store is an external service, absent from
    the sources.  It is taken as the spec describes it, one table of records
    addressed by the string attribute [id]: scan-all answers every record,
    get-by-key the record under the key or nothing, put-full-record replaces
    the record under the item's [id], delete-by-key removes it and succeeds
    whether or not it was there.  The stack declares the table's name and
    its partition key ([id], a string); a command for another table or with
    another key is rejected.  So is what the documented limits of the
    service exclude: a key that is the empty string or longer than 2048
    bytes, an item larger than 400 KB, a number outside the magnitudes
    1E-130 to 9.9E+125, and values nested deeper than 32 levels.  When a
    command has several of these defects, the one reported is the first in
    the order of [item_key].  A scan is taken to fit the one page (1 MB)
    that a single command reads.

    [table] is the table itself and [service] the table as the document
    client reaches it when every action is allowed; the permissions that
    the stack gives the function are applied in [Deployed.blog_table].
    Throttling and network failures are not part of this table; the
    properties that hold whatever the store does are proved for an
    arbitrary [service]. *)

Module BlogDb.
Import Js Dynamo.

Definition tableName : string := "blogdb".

Definition not_found : Error :=
  mkError "ResourceNotFoundException" "Requested resource not found".

Definition key_mismatch : Error :=
  mkError "ValidationException" "The provided key element does not match the schema".

Definition key_type_mismatch : Error :=
  mkError "ValidationException"
    "One or more parameter values were invalid: Type mismatch for key id expected: S".

Definition missing_key : Error :=
  mkError "ValidationException"
    "One or more parameter values were invalid: Missing the key id in the item".

Definition empty_key : Error :=
  mkError "ValidationException"
    ("One or more parameter values are not valid. The AttributeValue for a key " +:+
     "attribute cannot contain an empty string value. Key: id").

Definition long_key : Error :=
  mkError "ValidationException"
    ("One or more parameter values were invalid: Size of hashkey has exceeded " +:+
     "the maximum size limit of2048 bytes").

Definition number_underflow : Error :=
  mkError "ValidationException"
    ("Number underflow. Attempting to store a number with magnitude smaller " +:+
     "than supported range").

Definition number_overflow : Error :=
  mkError "ValidationException"
    ("Number overflow. Attempting to store a number with magnitude larger " +:+
     "than supported range").

Definition nested_too_deep : Error :=
  mkError "ValidationException" "Nesting Levels have exceeded supported limits".

Definition item_too_large : Error :=
  mkError "ValidationException" "Item size has exceeded the maximum allowed size".

(** The limits. *)
Definition max_key_size : Z := 2048.
Definition max_item_size : Z := 400 * 1024.
Definition max_depth : Z := 32.

(** The size of a string in bytes: a string is kept as its UTF-8 bytes. *)
Definition byte_length (s : string) : Z := Z.of_nat (String.length s).

(** An id that can be a key: not empty, at most [max_key_size] bytes. *)
Definition valid_key (i : string) : Error + string :=
  if decide (i = "") then inl empty_key
  else if decide (max_key_size < byte_length i)%Z then inl long_key
  else inr i.

(** The key of a [Key] argument: an object with the single attribute [id],
    a string. *)
Definition key_of (key : value) : Error + string :=
  match key with
  | JObj [(k, JStr i)] => if String.eqb k "id" then valid_key i else inl key_mismatch
  | _ => inl key_mismatch
  end.

(** A number the table can hold: zero, or of a magnitude from [1E-130] to
    below [1E+126]. *)
Definition number_error (n : number) : option Error :=
  match n with
  | Infinity _ => Some number_overflow
  | Number m e =>
      if decide (m = 0) then None
      else
        let p := decimal_digits m + e in
        if decide (p < -129)%Z then Some number_underflow
        else if decide (126 < p)%Z then Some number_overflow
        else None
  end.

Fixpoint value_error (v : value) : option Error :=
  match v with
  | JNum n => number_error n
  | JArr elems => first_error (map value_error elems)
  | JObj props => first_error (map (fun kv => value_error kv.2) props)
  | _ => None
  end.

(** How deep a value nests: a scalar not at all. *)
Fixpoint depth (v : value) : Z :=
  match v with
  | JArr elems => 1 + fold_right (fun e d => Z.max (depth e) d) 0 elems
  | JObj props => 1 + fold_right (fun kv d => Z.max (depth kv.2) d) 0 props
  | _ => 0
  end.

(** The size of a value as the service counts it: the bytes of a string,
    one byte for a boolean or null, a byte for every two significant
    digits of a number and one more, three bytes for a list or a map and
    one more for each of its elements. *)
Definition number_size (n : number) : Z :=
  match n with
  | Number m e => (Z.of_nat (length (digits_of m e).1) + 1) / 2 + 1
  | Infinity _ => 1
  end.

Fixpoint size_of (v : value) : Z :=
  match v with
  | undefined => 0
  | null | JBool _ => 1
  | JNum n => number_size n
  | JStr s => byte_length s
  | JArr elems => 3 + fold_right (fun e n => 1 + size_of e + n) 0 elems
  | JObj props =>
      3 + fold_right (fun kv n => 1 + byte_length kv.1 + size_of kv.2 + n) 0 props
  end.

(** The size of an item: the names and the values of its attributes. *)
Definition item_size (item : value) : Z :=
  match item with
  | JObj props => fold_right (fun kv n => byte_length kv.1 + size_of kv.2 + n) 0 props
  | _ => 0
  end.

Definition check {A} (e : option Error) (k : Error + A) : Error + A :=
  match e with
  | Some e => inl e
  | None => k
  end.

(** The key of an [Item] argument that the table accepts: the item's
    attribute [id], a string. *)
Definition item_key (item : value) : Error + string :=
  match item with
  | JObj props =>
      check (value_error item)
        (check (if decide (max_depth + 1 < depth item)%Z then Some nested_too_deep else None)
           (match assoc "id" props with
            | Some (JStr i) =>
                match valid_key i with
                | inl e => inl e
                | inr i =>
                    if decide (max_item_size < item_size item)%Z then inl item_too_large
                    else inr i
                end
            | Some _ => inl key_type_mismatch
            | None => inl missing_key
            end))
  | _ => inl missing_key
  end.

Definition on_table {A} (name : string) (r : Error + A) : Error + A :=
  if String.eqb name tableName then r else inl not_found.

Definition table (cmd : Command) (t : gmap string value)
    : (Error + value) * gmap string value :=
  match cmd with
  | ScanCommand name =>
      let items := (map_to_list t).*2 in
      let n := JNum (Number (Z.of_nat (length items)) 0) in
      (on_table name
         (inr (object_literal [("Items", JArr items); ("Count", n); ("ScannedCount", n)])),
       t)
  | GetCommand name key =>
      match on_table name (key_of key) with
      | inl e => (inl e, t)
      | inr i =>
          (inr (match t !! i with
                | Some item => object_literal [("Item", item)]
                | None => object_literal []
                end), t)
      end
  | PutCommand name item =>
      match on_table name (item_key item) with
      | inl e => (inl e, t)
      | inr i => (inr (object_literal []), <[i := item]> t)
      end
  | DeleteCommand name key =>
      match on_table name (key_of key) with
      | inl e => (inl e, t)
      | inr i => (inr (object_literal []), delete i t)
      end
  end.

Definition service : Command → gmap string value → (Error + value) * gmap string value :=
  client table.

End BlogDb.


(** ** Example requests *)

Module Examples.
Import Js.

(** The JSON text of an object whose fields are all strings without
    characters to escape. *)
Definition json_object (fields : list (string * string)) : string :=
  "{" +:+ join "," (map (fun kv => quoted kv.1 +:+ ":" +:+ quoted kv.2) fields) +:+ "}".

(** The body of the specification's PUT example, with the two payload
    fields named [k1] and [k2]. *)
Definition put_body (k1 k2 : string) : string :=
  json_object [("id", "1"); (k1, "a"); (k2, "b")].

(** The same with a field the handler does not know. *)
Definition put_body_extra : string :=
  json_object [("id", "1"); ("postTitle", "a"); ("postDescription", "b");
               ("author", "c")].

Definition put_posts (text : string) : Event.t :=
  Event.mk "PUT" "/posts" None (Some text).

Definition patch_posts : Event.t := Event.mk "PATCH" "/posts" None None.

Definition get_posts : Event.t := Event.mk "GET" "/posts" None None.

Definition get_post (id : string) : Event.t :=
  Event.mk "GET" "/posts/{id}" (Some [("id", id)]) None.

Definition delete_post (id : string) : Event.t :=
  Event.mk "DELETE" "/posts/{id}" (Some [("id", id)]) None.

Definition post (id title description : string) : value :=
  JObj [("id", JStr id); ("postTitle", JStr title); ("postDescription", JStr description)].

(** A store holding one post, as an invocation finds it. *)
Definition one_post : gmap string value := {[ "1" := post "1" "a" "b" ]}.

Definition start (t : gmap string value) : Run.State (gmap string value) :=
  Run.mkState (Run.mkLocals undefined 200) t [].

End Examples.

(** ** The handler of the items API

    The older variant of the handler, written against the document client
    of [aws-sdk] version 2 for the table [tutorial-items].  It differs from
    [Handler.handler] in what it reads and returns: the routing key is made
    of [event.path], the two GET cases return the store's whole answer, the
    record has the fields [id], [price] and [name], and the header map has
    four entries.  A call [dynamo.delete(params).promise()] is the request
    [DeleteCommand] of the same parameters, and likewise for [get], [scan]
    and [put]. *)

Module ItemsEvent.
Import Js.

Record t := mk {
  httpMethod : string;
  path : string;
  pathParameters : option (list (string * string));
  body : option string }.

Definition pathParameters_value (e : t) : value :=
  match pathParameters e with
  | None => null
  | Some ps => JObj (map (fun kv => (kv.1, JStr kv.2)) ps)
  end.

Definition body_value (e : t) : value :=
  match body e with
  | None => null
  | Some text => JStr text
  end.

End ItemsEvent.

Module Items.
Import Js Dynamo Run.

(** Property access with the wording of the TypeError on the Node.js 12
    runtime this variant is deployed to. *)
Definition get_prop (v : value) (k : string) : Error + value :=
  match v with
  | undefined => inl (TypeError ("Cannot read property '" +:+ k +:+ "' of undefined"))
  | null => inl (TypeError ("Cannot read property '" +:+ k +:+ "' of null"))
  | _ => inr (property v k)
  end.

Definition ownTable : string := "tutorial-items".

Definition headers : value :=
  object_literal
    [("Content-Type", JStr "application/json");
     ("Access-Control-Allow-Headers", JStr "Content-Type");
     ("Access-Control-Allow-Origin", JStr "http://localhost:3000");
     ("Access-Control-Allow-Methods", JStr "OPTIONS,PUT,GET,DELETE")].

(** [event.httpMethod + ' ' + event.path] *)
Definition routing_key (event : ItemsEvent.t) : string :=
  ItemsEvent.httpMethod event +:+ " " +:+ ItemsEvent.path event.

Section Handler.
Context {St : Type} (service : Command → St → (Error + value) * St).

Definition dispatch (event : ItemsEvent.t) : M St unit :=
  let key := routing_key event in
  if String.eqb key "DELETE /items/{id}" then
    id ← eval (get_prop (ItemsEvent.pathParameters_value event) "id");
    _ ← dynamo_send service (DeleteCommand ownTable (object_literal [("id", id)]));
    id' ← eval (get_prop (ItemsEvent.pathParameters_value event) "id");
    assign_body (JStr ("Deleted item " +:+ ToString id'))
  else if String.eqb key "GET /items/{id}" then
    id ← eval (get_prop (ItemsEvent.pathParameters_value event) "id");
    out ← dynamo_send service (GetCommand ownTable (object_literal [("id", id)]));
    assign_body out
  else if String.eqb key "GET /items" then
    out ← dynamo_send service (ScanCommand ownTable);
    assign_body out
  else if String.eqb key "PUT /items" then
    requestJSON ← eval (JSON_parse (ToString (ItemsEvent.body_value event)));
    id ← eval (get_prop requestJSON "id");
    price ← eval (get_prop requestJSON "price");
    name ← eval (get_prop requestJSON "name");
    _ ← dynamo_send service (PutCommand ownTable
                (object_literal [("id", id); ("price", price); ("name", name)]));
    id' ← eval (get_prop requestJSON "id");
    assign_body (JStr ("Put item " +:+ ToString id'))
  else
    throw (mkError "Error" ("Unsupported route: " +:+ quoted key)).

Definition handler (event : ItemsEvent.t) : M St Response.t :=
  declare (mkLocals undefined 200);;
  try_catch_finally
    (dispatch event)
    (fun err => assign_statusCode 400;; assign_body (JStr (message err)))
    (b ← read_body; assign_body (JSON_stringify b));;
  l ← read_locals;
  mret (Response.mk (statusCode l) (body l) headers).

End Handler.

(** The record the PUT case builds from the parsed body. *)
Definition item_of_body (requestJSON : value) : value :=
  JObj [("id", property requestJSON "id");
        ("price", property requestJSON "price");
        ("name", property requestJSON "name")].

End Items.

(** ** The stacks

    The constructors of the three versions of [ServerlessAppStack] declare
    resources by calling the construct library; what is kept of each call
    is what the handler's behaviour can be compared with: the table, the
    statements added to the policy of the function's role, and the methods
    of the resources of the REST API: those the constructor adds for the
    function, and the preflight methods that the API's
    [defaultCorsPreflightOptions] put on every resource. *)

Module Cdk.

Inductive AttributeType := STRING | NUMBER | BINARY.

Record Table := mkTable {
  tableName : string;
  partitionKey : string * AttributeType }.

(** What a policy statement applies to: the ARN of a table, or [*]. *)
Inductive Arn := TableArn (t : Table) | AnyResource.

Record PolicyStatement := mkStatement {
  resources : list Arn;
  actions : list string }.

Inductive AuthorizationType := NONE | COGNITO.

(** What a method hands a request to: the function, or the mock that
    answers a preflight request in the API itself. *)
Inductive Integration := LambdaIntegration | MockIntegration.

Record Method := mkMethod {
  resourcePath : string;
  httpMethod : string;
  authorizationType : AuthorizationType;
  integration : Integration }.

Inductive Runtime := NODEJS_12_X | NODEJS_16_X | NODEJS_18_X.

Record Stack := mkStack {
  table : Table;
  policy : list PolicyStatement;
  runtime : Runtime;
  methods : list Method }.

(** [role.addToPolicy(statement)] *)
Definition addToPolicy (role : list PolicyStatement) (st : PolicyStatement)
    : list PolicyStatement :=
  (role ++ [st])%list.

Definition root : string := "/".

(** [resource.addCorsPreflight(options)]: an OPTIONS method without
    authorization, answered by a mock integration. *)
Definition addCorsPreflight (api : list Method) (resource : string) : list Method :=
  (api ++ [mkMethod resource "OPTIONS" NONE MockIntegration])%list.

(** [new RestApi(scope, id, props)]: the API begins with its root
    resource, which gets the preflight method when the properties have
    [defaultCorsPreflightOptions]. *)
Definition RestApi (defaultCorsPreflightOptions : bool) : list Method :=
  if defaultCorsPreflightOptions then addCorsPreflight [] root else [].

(** [parent.addResource(pathPart)]: the new resource and its path; the
    root's path is [/].  A resource inherits the default preflight options
    of its parent and, having them, adds the preflight method to itself. *)
Definition addResource (defaultCorsPreflightOptions : bool) (api : list Method)
    (parent : string) (pathPart : string) : list Method * string :=
  let path :=
    if String.eqb parent "/" then "/" +:+ pathPart else parent +:+ "/" +:+ pathPart in
  (if defaultCorsPreflightOptions then addCorsPreflight api path else api, path).

(** [resource.addMethod(verb, integration, { authorizationType })] with
    the integration of the function; without options the method has no
    authorization. *)
Definition addMethod (api : list Method) (resource verb : string)
    (auth : AuthorizationType) : list Method :=
  (api ++ [mkMethod resource verb auth LambdaIntegration])%list.

Definition table_actions : list string :=
  ["dynamodb:BatchGetItem"; "dynamodb:GetItem"; "dynamodb:Query"; "dynamodb:Scan";
   "dynamodb:BatchWriteItem"; "dynamodb:PutItem"; "dynamodb:UpdateItem"].

Definition log_actions : list string :=
  ["logs:CreateLogStream"; "logs:PutLogEvents"; "logs:CreateLogGroup"].

(** The first version: the blog API with every method of the function
    behind the Cognito authorizer, and preflight methods on every
    resource. *)
Definition blog_stack : Stack :=
  let blogdb := mkTable "blogdb" ("id", STRING) in
  let role := [] in
  let role := addToPolicy role (mkStatement [TableArn blogdb] table_actions) in
  let role := addToPolicy role (mkStatement [AnyResource] log_actions) in
  let cors := true in
  let apiBlog := RestApi cors in
  let '(apiBlog, blogRootResource) := addResource cors apiBlog root "posts" in
  let apiBlog := addMethod apiBlog blogRootResource "GET" COGNITO in
  let apiBlog := addMethod apiBlog blogRootResource "PUT" COGNITO in
  let '(apiBlog, blogResource) := addResource cors apiBlog blogRootResource "{id}" in
  let apiBlog := addMethod apiBlog blogResource "GET" COGNITO in
  let apiBlog := addMethod apiBlog blogResource "DELETE" COGNITO in
  mkStack blogdb role NODEJS_16_X apiBlog.

(** The second version: the same, with GET on the collection open. *)
Definition blog_stack_open_list : Stack :=
  let blogdb := mkTable "blogdb" ("id", STRING) in
  let role := [] in
  let role := addToPolicy role (mkStatement [TableArn blogdb] table_actions) in
  let role := addToPolicy role (mkStatement [AnyResource] log_actions) in
  let cors := true in
  let apiBlog := RestApi cors in
  let '(apiBlog, blogRootResource) := addResource cors apiBlog root "posts" in
  let apiBlog := addMethod apiBlog blogRootResource "GET" NONE in
  let apiBlog := addMethod apiBlog blogRootResource "PUT" COGNITO in
  let '(apiBlog, blogResource) := addResource cors apiBlog blogRootResource "{id}" in
  let apiBlog := addMethod apiBlog blogResource "GET" COGNITO in
  let apiBlog := addMethod apiBlog blogResource "DELETE" COGNITO in
  mkStack blogdb role NODEJS_18_X apiBlog.

(** The third version: the items API, without authorization and without
    preflight options. *)
Definition items_stack : Stack :=
  let dynamodb := mkTable "tutorial-items" ("id", STRING) in
  let roleToLambda := [] in
  let roleToLambda :=
    addToPolicy roleToLambda (mkStatement [TableArn dynamodb] table_actions) in
  let roleToLambda :=
    addToPolicy roleToLambda (mkStatement [AnyResource] log_actions) in
  let cors := false in
  let api := RestApi cors in
  let '(api, items) := addResource cors api root "items" in
  let api := addMethod api items "GET" NONE in
  let api := addMethod api items "PUT" NONE in
  let '(api, item) := addResource cors api items "{id}" in
  let api := addMethod api item "GET" NONE in
  let api := addMethod api item "DELETE" NONE in
  mkStack dynamodb roleToLambda NODEJS_12_X api.

(** The routing key of a request that the API matched to the method [m]:
    the proxy event carries the method's verb and the path of its
    resource. *)
Definition key_of_method (m : Method) : string :=
  httpMethod m +:+ " " +:+ resourcePath m.

End Cdk.

(** ** Permissions

    Modelled from the platform, not from the spec: a call of the function
    to the table is allowed only when a statement of its role's policy
    lists the action of the call for the table; a call that is not allowed
    is rejected before it reaches the table, with an error whose message
    names the caller and is taken as given. *)

Module Iam.
Import Js Dynamo Cdk.

Definition action (cmd : Command) : string :=
  match cmd with
  | DeleteCommand _ _ => "dynamodb:DeleteItem"
  | GetCommand _ _ => "dynamodb:GetItem"
  | ScanCommand _ => "dynamodb:Scan"
  | PutCommand _ _ => "dynamodb:PutItem"
  end.

Definition table_of (cmd : Command) : string :=
  match cmd with
  | DeleteCommand name _ | GetCommand name _ | ScanCommand name
  | PutCommand name _ => name
  end.

Definition applies (name : string) (r : Arn) : bool :=
  match r with
  | TableArn t => String.eqb (tableName t) name
  | AnyResource => true
  end.

Definition allows (policy : list PolicyStatement) (cmd : Command) : bool :=
  existsb (fun st => existsb (String.eqb (action cmd)) (actions st) &&
                     existsb (applies (table_of cmd)) (resources st)) policy.

(** The table as the function reaches it under a policy. *)
Definition guarded {St : Type} (policy : list PolicyStatement)
    (denied : Command → Error)
    (service : Command → St → (Error + value) * St)
    (cmd : Command) (st : St) : (Error + value) * St :=
  if allows policy cmd then service cmd st else (inl (denied cmd), st).

End Iam.

(** ** The handler deployed on a stack *)

Module Deployed.
Import Js Dynamo Cdk.

(** A command addresses a table when it names it and, for a key or an
    item, leads with the table's partition key attribute. *)
Definition addresses (t : Table) (cmd : Command) : Prop :=
  Iam.table_of cmd = tableName t ∧
  match cmd with
  | DeleteCommand _ key | GetCommand _ key => ∃ x, key = JObj [((partitionKey t).1, x)]
  | PutCommand _ item => ∃ x rest, item = JObj (((partitionKey t).1, x) :: rest)
  | ScanCommand _ => True
  end.

(** The blog table as the function of the blog stack reaches it. *)
Definition blog_table (denied : Command → Error)
    : Command → gmap string value → (Error + value) * gmap string value :=
  client (Iam.guarded (policy blog_stack) denied BlogDb.table).

End Deployed.

(** ** More example requests *)

Module MoreExamples.
Import Js Examples.

(** A second body for the post 1. *)
Definition put_body_again : string :=
  json_object [("id", "1"); ("postTitle", "c"); ("postDescription", "d")].

Definition items_event (verb path : string) (id : option string)
    (text : option string) : ItemsEvent.t :=
  ItemsEvent.mk verb path ((fun i => [("id", i)]) <$> id) text.

Definition item_body : string :=
  json_object [("id", "7"); ("price", "3"); ("name", "pen")].

(** The message of a denial, which the platform words. *)
Definition denied (cmd : Dynamo.Command) : Error :=
  mkError "AccessDeniedException"
    ("not authorized to perform: " +:+ Iam.action cmd).

End MoreExamples.

(** ** The record of an upsert *)

Module Post.
Import Js.

(** The [Item] the PUT case builds from the parsed body. *)
Definition of_body (requestJSON : value) : value :=
  JObj [("id", property requestJSON "id");
        ("postTitle", property requestJSON "postTitle");
        ("postDescription", property requestJSON "postDescription")].

(** The body names a post that the table takes: the three fields are
    strings, the [id] can be a key (not empty, within the size of a key),
    and the record is within the size of an item, which counts the names
    of the three fields (26 bytes) and their values. *)
Definition complete (requestJSON : value) (i title description : string) : Prop :=
  property requestJSON "id" = JStr i ∧
  property requestJSON "postTitle" = JStr title ∧
  property requestJSON "postDescription" = JStr description ∧
  i ≠ "" ∧
  (BlogDb.byte_length i ≤ BlogDb.max_key_size)%Z ∧
  (26 + BlogDb.byte_length i + BlogDb.byte_length title +
   BlogDb.byte_length description ≤ BlogDb.max_item_size)%Z.

End Post.

(** * Properties *)

Import Js Dynamo Run Handler.

Ltac unfold_run :=
  unfold mbind, M_bind, mret, M_ret, bind, ret, throw, eval, dynamo_send,
    assign_body, assign_statusCode, read_body, read_locals, declare in *.

(** Case analysis on every call of the [try] block that can throw. *)
Ltac case_calls service :=
  repeat (simpl;
    match goal with
    | |- context [match get_prop ?v ?k with _ => _ end] =>
        destruct (get_prop v k) eqn:?
    | |- context [match JSON_parse ?t with _ => _ end] =>
        destruct (JSON_parse t) eqn:?
    | |- context [service ?c ?st] =>
        destruct (service c st) as [[?|?] ?] eqn:?
    end).

(** ** The platform functions on small inputs *)

Example number_texts :
  map Number_toString
      [Number 15 (-1); Number 1200 0; Number (-5) (-7); Number 1 21; Number 123 (-5)]
  = ["1.5"; "1200"; "-5e-7"; "1e+21"; "0.00123"].
Proof. reflexivity. Qed.

Example template_texts :
  map ToString [undefined; null; JBool true; JStr "7";
                JArr [JNum (Number 1 0); null; JStr "a"]; JObj []]
  = ["undefined"; "null"; "true"; "7"; "1,,a"; "[object Object]"].
Proof. reflexivity. Qed.

Example stringify_object :
  JSON_stringify (JObj [("id", JStr "1"); ("postTitle", undefined);
                        ("tags", JArr [undefined; JBool false])])
  = JStr ("{" +:+ quoted "id" +:+ ":" +:+ quoted "1" +:+ "," +:+
          quoted "tags" +:+ ":[null,false]}").
Proof. reflexivity. Qed.

Example parse_claim_body :
  JSON_parse (Examples.put_body "title" "description")
  = inr (JObj [("id", JStr "1"); ("title", JStr "a"); ("description", JStr "b")]).
Proof. reflexivity. Qed.

Example parse_nested :
  JSON_parse "[1, -2.50e3, true, null, {}, [ ], 0.001]"
  = inr (JArr [JNum (Number 1 0); JNum (Number (-25) 2); JBool true; null;
               JObj []; JArr []; JNum (Number 1 (-3))]).
Proof. vm_compute. reflexivity. Qed.

(** Numbers are read as doubles: digits beyond the precision of a double
    are rounded away, a literal beyond the largest double is [Infinity],
    one below the least is zero. *)
Example parse_doubles :
  match JSON_parse ("[0.1234567890123456789, 12345678901234567890, 1e23, 5e-324, " +:+
                    "1.7976931348623157e308, 9007199254740993, 0.30000000000000004, " +:+
                    "1e400, -1e400, 2e-324, -0, 100, 1797693134862315807e290]") with
  | inr (JArr xs) => map serialize xs
  | _ => []
  end
  = ["0.12345678901234568"; "12345678901234567000"; "1e+23"; "5e-324";
     "1.7976931348623157e+308"; "9007199254740992"; "0.30000000000000004";
     "null"; "null"; "0"; "0"; "100"; "1.7976931348623157e+308"].
Proof. vm_compute. reflexivity. Qed.

Example parse_infinity :
  JSON_parse "[1e400, -1e999]"
  = inr (JArr [JNum (Infinity false); JNum (Infinity true)]) ∧
  ToString (JNum (Infinity false)) = "Infinity".
Proof. split; vm_compute; reflexivity. Qed.

Example parse_errors :
  map (fun text => match JSON_parse text with inl e => message e | inr _ => "" end)
      [""; "{"; "[1,]"; "01"; "trux"; "}"]
  = ["Unexpected end of JSON input";
     "Unexpected end of JSON input";
     "Unexpected token ] in JSON at position 3";
     "Unexpected number in JSON at position 1";
     "Unexpected token x in JSON at position 3";
     "Unexpected token } in JSON at position 0"].
Proof. reflexivity. Qed.

Example parse_absent_body : JSON_parse (ToString null) = inr null.
Proof. reflexivity. Qed.

(** ** Serialization *)

Lemma string_length_app (a b : string) :
  String.length (a +:+ b) = (String.length a + String.length b)%nat.
Proof. induction a as [|c a IH]; simpl; [reflexivity | now rewrite IH]. Qed.

Lemma quote_char_length (c : ascii) : (1 ≤ String.length (quote_char c))%nat.
Proof.
  unfold quote_char. repeat case_decide; simpl; lia.
Qed.

Lemma quote_chars_length (s : string) :
  (String.length s ≤ String.length (quote_chars s))%nat.
Proof.
  induction s as [|c s IH]; simpl; [lia|].
  rewrite string_length_app. pose proof (quote_char_length c). lia.
Qed.

(** The JSON text of a string is never the string itself: it is at least
    two characters longer. *)
Lemma QuoteJSONString_longer (s : string) :
  (String.length s + 2 ≤ String.length (QuoteJSONString s))%nat.
Proof.
  unfold QuoteJSONString, quoted. simpl. rewrite string_length_app. simpl.
  pose proof (quote_chars_length s). lia.
Qed.

Lemma QuoteJSONString_neq (s : string) : QuoteJSONString s ≠ s.
Proof.
  intros H. pose proof (QuoteJSONString_longer s) as Hl. rewrite H in Hl. lia.
Qed.

Lemma JSON_stringify_string (s : string) :
  JSON_stringify (JStr s) = JStr (QuoteJSONString s).
Proof. reflexivity. Qed.

Lemma JSON_stringify_is_string (v : value) :
  is_string (JSON_stringify v) = negb (is_undefined v).
Proof. destruct v; reflexivity. Qed.

Lemma JSON_stringify_undefined (v : value) :
  JSON_stringify v = undefined ↔ v = undefined.
Proof. destruct v; simpl; split; congruence. Qed.

(** ** Parsing

    [JSON.parse] answers a value free of [undefined]: the automaton only
    ever builds strings, numbers, the three literals, arrays and objects
    of such values. *)

Import ParserInvariant.

Lemma forallb_rev {A} (f : A → bool) (l : list A) :
  forallb f (rev l) = forallb f l.
Proof.
  induction l as [|x l IH]; simpl; [reflexivity|].
  rewrite forallb_app, IH. simpl. rewrite andb_true_r. apply andb_comm.
Qed.

Lemma replace_prop_ok k v ps :
  free_of_undefined v = true →
  forallb (fun kv => free_of_undefined kv.2) ps = true →
  forallb (fun kv => free_of_undefined kv.2) (replace_prop k v ps) = true.
Proof.
  intros Hv. induction ps as [|[k' x] ps IH]; simpl; [reflexivity|].
  intros [Hx Hps]%andb_true_iff.
  destruct (String.eqb k' k); simpl; rewrite ?Hv, ?Hx, ?Hps, ?IH; auto.
Qed.

Lemma insert_index_ok i k v ps :
  free_of_undefined v = true →
  forallb (fun kv => free_of_undefined kv.2) ps = true →
  forallb (fun kv => free_of_undefined kv.2) (insert_index i k v ps) = true.
Proof.
  intros Hv. induction ps as [|[k' x] ps IH]; simpl; [now rewrite Hv|].
  intros [Hx Hps]%andb_true_iff.
  destruct (array_index k') as [j|]; [case_decide|]; simpl;
    rewrite ?Hv, ?Hx, ?Hps, ?IH; auto.
Qed.

Lemma obj_set_ok k v ps :
  free_of_undefined v = true →
  forallb (fun kv => free_of_undefined kv.2) ps = true →
  forallb (fun kv => free_of_undefined kv.2) (obj_set k v ps) = true.
Proof.
  intros Hv Hps. unfold obj_set.
  destruct (assoc k ps); [now apply replace_prop_ok|].
  destruct (array_index k); [now apply insert_index_ok|].
  rewrite forallb_app, Hps. simpl. now rewrite Hv.
Qed.

Lemma push_value_ok v stk res stk' res' :
  free_of_undefined v = true → stack_ok stk res →
  push_value v stk res = Some (stk', res') → stack_ok stk' res'.
Proof.
  intros Hv [Hs Hr]. unfold push_value.
  destruct stk as [|[es [| |]|ps [|k|k| |]] stk0]; try destruct res;
    intros H; simplify_eq; simpl in *; destruct_and?.
  all: repeat split; simpl; auto.
  all: try (intros x Hx; simplify_eq; done).
  all: try (apply andb_true_iff; split; assumption).
  all: by apply obj_set_ok.
Qed.

Lemma push_string_ok s stk res stk' res' :
  stack_ok stk res →
  push_string s stk res = Some (stk', res') → stack_ok stk' res'.
Proof.
  intros Hs. unfold push_string.
  destruct stk as [|[es st|ps [|k|k| |]] stk0]; intros H;
    first [ by eapply push_value_ok in H
          | simplify_eq; destruct Hs as [[Hf Hs] Hr]; by repeat split ].
Qed.

Lemma resume_ok c pos o p' :
  (∀ stk res, o = Some (stk, res) → stack_ok stk res) →
  resume c pos o = inr p' → pstate_ok p'.
Proof.
  intros Ho. destruct o as [[stk res]|]; simpl; intros H; simplify_eq.
  split; simpl; eauto.
Qed.

Ltac ok_now :=
  let H := fresh in
  intros H; simplify_eq; repeat split; simpl in *; intuition eauto.

Lemma step_idle_ok stk res pos c p' :
  stack_ok stk res → step_idle stk res pos c = inr p' → pstate_ok p'.
Proof.
  intros [Hs Hr]. unfold step_idle.
  destruct (is_space c); [ok_now|].
  destruct c as [[|] [|] [|] [|] [|] [|] [|] [|]]; simpl.
  all: repeat match goal with
       | |- context [expects_value ?a ?b] => destruct (expects_value a b); simpl
       | |- context [expects_key ?a] => destruct (expects_key a); simpl
       | |- context [match ?x with _ => _ end] => is_var x; destruct x; simpl
       end.
  all: try discriminate.
  all: try (ok_now; fail).
  all: simpl in Hs; destruct Hs as [Hf Hs].
  all: intros H; eapply resume_ok in H; [exact H|].
  all: intros stk1 res1 Hp; eapply push_value_ok in Hp; eauto.
  all: try (by split).
  all: simpl; by rewrite forallb_rev.
Qed.

Lemma step_ok p pos c p' : pstate_ok p → step p pos c = inr p' → pstate_ok p'.
Proof.
  intros [Hl Hr]. unfold step. destruct (lex p) as [|acc hi|acc hi|acc hi hex|st a|rest v].
  - by apply step_idle_ok.
  - unfold step_string.
    destruct c as [[|] [|] [|] [|] [|] [|] [|] [|]]; simpl.
    all: try (intros H; simplify_eq; by split).
    intros H. eapply resume_ok in H; [exact H|].
    intros stk1 res1 Hp. by eapply push_string_ok in Hp.
  - unfold step_escape.
    destruct c as [[|] [|] [|] [|] [|] [|] [|] [|]]; simpl.
    all: intros H; simplify_eq; by split.
  - unfold step_unicode. destruct (hex_value c); [|discriminate].
    repeat case_decide; destruct hi; repeat case_bool_decide.
    all: let H := fresh in intros H; simplify_eq; by split.
  - unfold step_number.
    assert (Hdone : match push_value (number_of a) (stack p) (result p) with
                    | Some (stk', res') => step_idle stk' res' pos c
                    | None => inl (unexpected c pos)
                    end = inr p' → pstate_ok p').
    { destruct (push_value _ _ _) as [[stk1 res1]|] eqn:Hp; [|discriminate].
      apply step_idle_ok. eapply push_value_ok in Hp; eauto. }
    destruct st; repeat first
      [ exact Hdone
      | match goal with
        | |- context [digit_value c] => destruct (digit_value c) as [[|?|?]|]
        | |- context [is_exp_mark c] => destruct (is_exp_mark c)
        end
      | case_decide ].
    all: let H := fresh in intros H; simplify_eq; by split.
  - unfold step_literal. simpl in Hl.
    destruct rest as [|r [|r' rest]]; [discriminate| |]; case_decide; try discriminate.
    + intros Hs. eapply resume_ok in Hs; [exact Hs|].
      intros stk1 res1 Hp. by eapply push_value_ok in Hp.
    + intros Hs; simplify_eq; by split.
Qed.

Lemma finish_ok p v : pstate_ok p → finish p = inr v → free_of_undefined v = true.
Proof.
  intros [Hl Hr]. unfold finish.
  assert (Hc : ∀ stk res, stack_ok stk res → closed stk res = inr v →
                free_of_undefined v = true).
  { intros [|f stk] [x|] [_ Hx] H; simpl in H; simplify_eq. by apply Hx. }
  destruct (lex p) as [|acc hi|acc hi|acc hi hex|[] a|rest x]; try discriminate.
  1: by apply Hc.
  all: destruct (push_value _ _ _) as [[stk1 res1]|] eqn:Hp; [|discriminate].
  all: apply Hc; eapply push_value_ok in Hp; eauto.
Qed.

Lemma run_ok text p pos v :
  pstate_ok p → run p pos text = inr v → free_of_undefined v = true.
Proof.
  revert p pos. induction text as [|c text IH]; intros p pos Hp; simpl.
  - by apply finish_ok.
  - destruct (step p pos c) as [e|p1] eqn:Hs; [discriminate|].
    apply IH. by eapply step_ok.
Qed.

Lemma JSON_parse_free_of_undefined (text : string) (v : value) :
  JSON_parse text = inr v → free_of_undefined v = true.
Proof. apply run_ok. repeat split; simpl. discriminate. Qed.

Lemma JSON_parse_defined (text : string) (v : value) :
  JSON_parse text = inr v → v ≠ undefined.
Proof. intros H%JSON_parse_free_of_undefined ->. discriminate H. Qed.

(** A property of a parsed value is absent or itself free of
    [undefined]. *)
Lemma property_free_of_undefined (v : value) (k : string) :
  free_of_undefined v = true → property v k ≠ undefined →
  free_of_undefined (property v k) = true.
Proof.
  destruct v as [| | | | |es|ps]; simpl; try congruence.
  unfold own. induction ps as [|[k' x] ps IH]; simpl; [congruence|].
  intros [Hx Hps]%andb_true_iff. destruct (String.eqb k' k); simpl; auto.
Qed.

Lemma get_prop_defined (v : value) (k : string) :
  v ≠ undefined → v ≠ null → get_prop v k = inr (property v k).
Proof. destruct v; simpl; congruence. Qed.

(** ** Request fields and object literals *)

Lemma assoc_map_JStr (k : string) (ps : list (string * string)) :
  assoc k (map (fun kv => (kv.1, JStr kv.2)) ps) = JStr <$> assoc k ps.
Proof.
  induction ps as [|[k' x] ps IH]; simpl; [reflexivity|].
  destruct (String.eqb k' k); [reflexivity | exact IH].
Qed.

(** [event.pathParameters.id] when the request has path parameters. *)
Lemma path_id (event : Event.t) (ps : list (string * string)) :
  Event.pathParameters event = Some ps →
  get_prop (Event.pathParameters_value event) "id" =
    inr (match assoc "id" ps with Some i => JStr i | None => undefined end).
Proof.
  intros H. unfold Event.pathParameters_value. rewrite H. simpl.
  unfold own. rewrite assoc_map_JStr. now destruct (assoc "id" ps).
Qed.

Lemma key_literal (x : value) : object_literal [("id", x)] = JObj [("id", x)].
Proof. reflexivity. Qed.

Lemma item_literal (x y z : value) :
  object_literal [("id", x); ("postTitle", y); ("postDescription", z)] =
    JObj [("id", x); ("postTitle", y); ("postDescription", z)].
Proof. reflexivity. Qed.

(** ** How an invocation ends *)

Section Invocation.
Context {St : Type} (service : Command → St → (Error + value) * St).

(** [handler] always returns: when the [try] block returns, the response
    carries the locals it left; when it throws, the [catch] block sets 400
    and the message; either way the [finally] block serializes [body]. *)
Lemma handler_run (event : Event.t) (s : State St) :
  handler service event s =
    match dispatch service event (entry s) with
    | (Returned _, s1) =>
        let l := locals s1 in
        (Returned (respond (statusCode l) (body l)),
         mkState (mkLocals (JSON_stringify (body l)) (statusCode l)) (store s1) (sent s1))
    | (Thrown e, s1) =>
        (Returned (respond 400 (JStr (message e))),
         mkState (mkLocals (JSON_stringify (JStr (message e))) 400) (store s1) (sent s1))
    end.
Proof.
  unfold handler, try_catch_finally, entry, respond. unfold_run. simpl.
  destruct (dispatch service event _) as [[u|e] s1]; reflexivity.
Qed.

(** The [try] block never assigns [statusCode], sends at most one command,
    and a command it sends is the one the dispatch table gives the routing
    key. *)
Lemma dispatch_frame (event : Event.t) (s s1 : State St) (o : Outcome unit) :
  dispatch service event s = (o, s1) →
  statusCode (locals s1) = statusCode (locals s) ∧
  ∃ cmds, sent s1 = (sent s ++ cmds)%list ∧ (length cmds ≤ 1)%nat ∧
    ∀ cmd, cmd ∈ cmds →
      assoc (routing_key event) dispatch_table = Some (operation cmd).
Proof.
  unfold dispatch.
  destruct (String.eqb_spec (routing_key event) "DELETE /posts/{id}") as [->|?].
  2: destruct (String.eqb_spec (routing_key event) "GET /posts/{id}") as [->|?].
  3: destruct (String.eqb_spec (routing_key event) "GET /posts") as [->|?].
  4: destruct (String.eqb_spec (routing_key event) "PUT /posts") as [->|?].
  all: unfold_run; case_calls service; intros H.
  all: injection H as <- <-; simpl; split; [reflexivity|].
  all: first [ exists []; rewrite app_nil_r; split; [reflexivity|];
               split; [simpl; lia|]; intros cmd Hin; inversion Hin
             | eexists [_]; split; [reflexivity|];
               split; [simpl; lia|]; intros cmd Hin;
               apply list_elem_of_singleton in Hin as ->; reflexivity ].
Qed.

(** A routing key outside the dispatch table reaches the [default] case. *)
Lemma dispatch_unsupported (event : Event.t) (s : State St) :
  assoc (routing_key event) dispatch_table = None →
  dispatch service event s =
    (Thrown (mkError "Error" ("Unsupported route: " +:+ quoted (routing_key event))), s).
Proof.
  unfold dispatch, dispatch_table, assoc. intros H.
  rewrite (String.eqb_sym (routing_key event) "DELETE /posts/{id}"),
    (String.eqb_sym (routing_key event) "GET /posts/{id}"),
    (String.eqb_sym (routing_key event) "GET /posts"),
    (String.eqb_sym (routing_key event) "PUT /posts").
  repeat match type of H with
         | context [String.eqb ?a ?b] => destruct (String.eqb a b); [discriminate H|]
         end.
  reflexivity.
Qed.

(** An upsert whose body is no JSON text throws the parse error before
    anything is sent. *)
Lemma dispatch_malformed_body (event : Event.t) (s : State St) (e : Error) :
  routing_key event = "PUT /posts" →
  JSON_parse (ToString (Event.body_value event)) = inl e →
  dispatch service event s = (Thrown e, s).
Proof.
  intros Hk Hp. unfold dispatch. rewrite Hk. simpl. unfold_run. now rewrite Hp.
Qed.

(** When the store rejects the command of the request, the [try] block
    throws the store's error; nothing is retried. *)
Lemma dispatch_store_failure (event : Event.t) (s s1 : State St) (o : Outcome unit)
    (cmd : Command) (e : Error) (st' : St) :
  dispatch service event s = (o, s1) →
  sent s1 = (sent s ++ [cmd])%list →
  service cmd (store s) = (inl e, st') →
  o = Thrown e ∧ store s1 = st'.
Proof.
  unfold dispatch.
  destruct (String.eqb_spec (routing_key event) "DELETE /posts/{id}") as [Hk|?].
  2: destruct (String.eqb_spec (routing_key event) "GET /posts/{id}") as [Hk|?].
  3: destruct (String.eqb_spec (routing_key event) "GET /posts") as [Hk|?].
  4: destruct (String.eqb_spec (routing_key event) "PUT /posts") as [Hk|?].
  all: unfold_run; case_calls service; intros H Hs Hr.
  all: injection H as <- <-; simpl in Hs.
  all: try (apply app_inv_head in Hs; injection Hs as <-).
  all: try (rewrite <- (app_nil_r (sent s)) in Hs at 1;
            apply app_inv_head in Hs; discriminate Hs).
  all: simpl in *; split; congruence.
Qed.

(** The value [body] holds when the [try] block returns: a string after a
    delete or an upsert; only the two GET routes leave what the store
    answered. *)
Lemma dispatch_returned_body (event : Event.t) (s s1 : State St) (u : unit) :
  dispatch service event s = (Returned u, s1) →
  (routing_key event = "DELETE /posts/{id}" ∨ routing_key event = "PUT /posts") ∧
    is_string (body (locals s1)) = true
  ∨ (routing_key event = "GET /posts/{id}" ∨ routing_key event = "GET /posts").
Proof.
  unfold dispatch.
  destruct (String.eqb_spec (routing_key event) "DELETE /posts/{id}") as [Hk|?].
  2: destruct (String.eqb_spec (routing_key event) "GET /posts/{id}") as [Hk|?].
  3: destruct (String.eqb_spec (routing_key event) "GET /posts") as [Hk|?].
  4: destruct (String.eqb_spec (routing_key event) "PUT /posts") as [Hk|?].
  all: unfold_run; case_calls service; intros H; try discriminate H.
  all: simplify_eq; simpl; auto.
Qed.

(** The command each route sends once its operands are read. *)
Lemma dispatch_sends_scan (event : Event.t) (s : State St) :
  routing_key event = "GET /posts" →
  sent (dispatch service event s).2 = (sent s ++ [ScanCommand tableName])%list.
Proof.
  intros Hk. unfold dispatch. rewrite Hk. simpl.
  unfold_run. case_calls service; reflexivity.
Qed.

Lemma dispatch_sends_get (event : Event.t) (s : State St) (id : value) :
  routing_key event = "GET /posts/{id}" →
  get_prop (Event.pathParameters_value event) "id" = inr id →
  sent (dispatch service event s).2 =
    (sent s ++ [GetCommand tableName (JObj [("id", id)])])%list.
Proof.
  intros Hk Hid. unfold dispatch. rewrite Hk. simpl.
  unfold_run. rewrite Hid, ?key_literal. case_calls service; reflexivity.
Qed.

Lemma dispatch_sends_delete (event : Event.t) (s : State St) (id : value) :
  routing_key event = "DELETE /posts/{id}" →
  get_prop (Event.pathParameters_value event) "id" = inr id →
  sent (dispatch service event s).2 =
    (sent s ++ [DeleteCommand tableName (JObj [("id", id)])])%list.
Proof.
  intros Hk Hid. unfold dispatch. rewrite Hk. simpl.
  unfold_run. rewrite Hid, ?key_literal. case_calls service; reflexivity.
Qed.

Lemma dispatch_sends_put (event : Event.t) (s : State St) (v : value) :
  routing_key event = "PUT /posts" →
  JSON_parse (ToString (Event.body_value event)) = inr v →
  v ≠ null →
  sent (dispatch service event s).2 =
    (sent s ++ [PutCommand tableName
                  (JObj [("id", property v "id");
                         ("postTitle", property v "postTitle");
                         ("postDescription", property v "postDescription")])])%list.
Proof.
  intros Hk Hp Hn. pose proof (JSON_parse_defined _ _ Hp) as Hu.
  unfold dispatch. rewrite Hk. simpl.
  unfold_run. rewrite Hp. simpl.
  rewrite (get_prop_defined v "id") by assumption. simpl.
  rewrite (get_prop_defined v "postTitle") by assumption. simpl.
  rewrite (get_prop_defined v "postDescription") by assumption. simpl.
  case_calls service; reflexivity.
Qed.

(** What the two GET routes leave in [body] when the store answers. *)
Lemma dispatch_get_body (event : Event.t) (s : State St) (id out item : value) (st' : St) :
  routing_key event = "GET /posts/{id}" →
  get_prop (Event.pathParameters_value event) "id" = inr id →
  service (GetCommand tableName (JObj [("id", id)])) (store s) = (inr out, st') →
  get_prop out "Item" = inr item →
  ∃ s1, dispatch service event s = (Returned (), s1) ∧ body (locals s1) = item.
Proof.
  intros Hk Hid Hs Hi. unfold dispatch. rewrite Hk. simpl.
  unfold_run. rewrite Hid. simpl. rewrite ?key_literal.
  unfold tableName in *. rewrite Hs. simpl. rewrite Hi. simpl. eauto.
Qed.

Lemma dispatch_scan_body (event : Event.t) (s : State St) (out items : value) (st' : St) :
  routing_key event = "GET /posts" →
  service (ScanCommand tableName) (store s) = (inr out, st') →
  get_prop out "Items" = inr items →
  ∃ s1, dispatch service event s = (Returned (), s1) ∧ body (locals s1) = items.
Proof.
  intros Hk Hs Hi. unfold dispatch. rewrite Hk. simpl.
  unfold_run. unfold tableName in *. rewrite Hs. simpl. rewrite Hi. simpl. eauto.
Qed.

(** The response of an invocation in terms of its [try] block. *)
Lemma handler_response (event : Event.t) (s : State St) :
  ∃ s', handler service event s =
    (Returned (match dispatch service event (entry s) with
               | (Returned _, s1) => respond 200 (body (locals s1))
               | (Thrown e, _) => respond 400 (JStr (message e))
               end), s') ∧
    store s' = store (dispatch service event (entry s)).2 ∧
    sent s' = sent (dispatch service event (entry s)).2.
Proof.
  rewrite handler_run.
  destruct (dispatch service event (entry s)) as [[u|e] s1] eqn:Hd.
  - apply dispatch_frame in Hd as [Hc _]. simpl in *. rewrite Hc. eauto.
  - simpl. eauto.
Qed.


Lemma invoke_run (event : Event.t) (st : St) :
  invoke service event st =
    match dispatch service event (mkState (mkLocals undefined 200) st []) with
    | (Returned _, s1) =>
        (Returned (respond (statusCode (locals s1)) (body (locals s1))), store s1, sent s1)
    | (Thrown e, s1) =>
        (Returned (respond 400 (JStr (message e))), store s1, sent s1)
    end.
Proof.
  unfold invoke. rewrite handler_run. unfold entry. simpl.
  destruct (dispatch service event _) as [[u|e] s1]; reflexivity.
Qed.

(** C9. Whatever the request and however the store behaves, failures of
    the store included, the invocation returns a response whose status code
    is 200 or 400. *)
Theorem status_code_200_or_400 (event : Event.t) (s : State St) :
  ∃ r s', handler service event s = (Returned r, s') ∧
    (Response.statusCode r = 200 ∨ Response.statusCode r = 400).
Proof.
  destruct (handler_response event s) as (s' & -> & _).
  eexists _, s'. split; [reflexivity|].
  destruct (dispatch service event (entry s)) as [[u|e] s1]; simpl; auto.
Qed.

(** C8. Every invocation, on any route, succeeding or failing, returns the
    same static header map: the JSON content type, and the cross-origin
    directives allowing one configured origin. *)
Theorem headers_static (event : Event.t) (s : State St) :
  ∃ r s', handler service event s = (Returned r, s') ∧
    Response.headers r = headers ∧
    get_prop headers "Content-Type" = inr (JStr "application/json") ∧
    get_prop headers "Access-Control-Allow-Origin" = inr (JStr "http://localhost:3000") ∧
    get_prop headers "Access-Control-Allow-Credentials" = inr (JBool true).
Proof.
  destruct (handler_response event s) as (s' & -> & _).
  eexists _, s'. split; [reflexivity|].
  split; [|repeat split].
  destruct (dispatch service event (entry s)) as [[u|e] s1]; reflexivity.
Qed.

(** C1, amended. Every invocation sends at most one command, and a
    command it sends is the one the dispatch table gives the routing key.
    For the four defined keys exactly that one command is sent once the
    operands of the route are read: always for GET on the collection, when
    the request has path parameters for GET and DELETE on an item, and when
    the body parses to a value other than null for PUT. *)
Theorem one_store_operation (event : Event.t) (s : State St) :
  ∃ r s' cmds, handler service event s = (Returned r, s') ∧
    sent s' = (sent s ++ cmds)%list ∧
    (length cmds ≤ 1)%nat ∧
    (∀ cmd, cmd ∈ cmds →
       assoc (routing_key event) dispatch_table = Some (operation cmd)) ∧
    (routing_key event = "GET /posts" → cmds = [ScanCommand tableName]) ∧
    (∀ ps, routing_key event = "GET /posts/{id}" →
       Event.pathParameters event = Some ps →
       cmds = [GetCommand tableName
                 (JObj [("id", match assoc "id" ps with
                               | Some i => JStr i
                               | None => undefined
                               end)])]) ∧
    (∀ ps, routing_key event = "DELETE /posts/{id}" →
       Event.pathParameters event = Some ps →
       cmds = [DeleteCommand tableName
                 (JObj [("id", match assoc "id" ps with
                               | Some i => JStr i
                               | None => undefined
                               end)])]) ∧
    (∀ v, routing_key event = "PUT /posts" →
       JSON_parse (ToString (Event.body_value event)) = inr v →
       v ≠ null →
       cmds = [PutCommand tableName
                 (JObj [("id", property v "id");
                        ("postTitle", property v "postTitle");
                        ("postDescription", property v "postDescription")])]).
Proof.
  destruct (handler_response event s) as (s' & -> & _ & Hsent).
  destruct (dispatch service event (entry s)) as [o s1] eqn:Hd.
  destruct (dispatch_frame _ _ _ _ Hd) as (_ & cmds & Hc & Hlen & Hop).
  simpl in Hsent, Hc.
  assert (Hexact : ∀ cmd, sent (dispatch service event (entry s)).2
                          = (sent (entry s) ++ [cmd])%list → cmds = [cmd]).
  { intros cmd Hx. rewrite Hd in Hx. simpl in Hx. rewrite Hc in Hx.
    now apply app_inv_head in Hx. }
  eexists _, s', cmds. split; [reflexivity|].
  split; [congruence|]. split; [exact Hlen|]. split; [exact Hop|].
  repeat split.
  - intros Hk. apply Hexact. now apply dispatch_sends_scan.
  - intros ps Hk Hps. apply Hexact.
    apply dispatch_sends_get; [exact Hk | now apply path_id].
  - intros ps Hk Hps. apply Hexact.
    apply dispatch_sends_delete; [exact Hk | now apply path_id].
  - intros v Hk Hp Hn. apply Hexact. now apply dispatch_sends_put.
Qed.

(** C2, amended. Whenever the operation fails, whatever the kind of
    failure, the invocation returns status 400 and a body that is the JSON
    text of the failure's message: the message in double quotes, with
    quotes, backslashes and control characters escaped.  The three kinds
    of failure all take this path: a routing key outside the table, a body
    that does not parse on upsert, and a command the store rejects. *)
Theorem failure_gives_400 (event : Event.t) (s : State St) :
  (∀ e s1, dispatch service event (entry s) = (Thrown e, s1) →
     ∃ s', handler service event s =
             (Returned (Response.mk 400 (JStr (QuoteJSONString (message e))) headers), s') ∧
           store s' = store s1 ∧ sent s' = sent s1) ∧
  (assoc (routing_key event) dispatch_table = None →
     ∃ e, dispatch service event (entry s) = (Thrown e, entry s)) ∧
  (∀ e, routing_key event = "PUT /posts" →
     JSON_parse (ToString (Event.body_value event)) = inl e →
     dispatch service event (entry s) = (Thrown e, entry s)) ∧
  (∀ cmd e st', sent (dispatch service event (entry s)).2 = (sent s ++ [cmd])%list →
     service cmd (store s) = (inl e, st') →
     (dispatch service event (entry s)).1 = Thrown e).
Proof.
  repeat split.
  - intros e s1 Hd. destruct (handler_response event s) as (s' & Hh & Hst & Hse).
    rewrite Hd in Hh, Hst, Hse. exists s'. now rewrite Hh.
  - intros Hk. eexists. now apply dispatch_unsupported.
  - intros e Hk Hp. now apply dispatch_malformed_body.
  - intros cmd e st' Hs Hr.
    destruct (dispatch service event (entry s)) as [o s1] eqn:Hd.
    now destruct (dispatch_store_failure _ _ _ _ _ _ _ Hd Hs Hr).
Qed.

(** C3, amended. A request whose routing key is none of the four entries
    of the dispatch table fails with an error whose message is
    [Unsupported route: ] followed by the key in double quotes, before
    anything is sent to the store; the response has status 400 and its
    body is the JSON text of that message. *)
Theorem unsupported_route (event : Event.t) (s : State St) :
  assoc (routing_key event) dispatch_table = None →
  let msg := "Unsupported route: " +:+ quoted (routing_key event) in
  dispatch service event (entry s) = (Thrown (mkError "Error" msg), entry s) ∧
  ∃ s', handler service event s =
          (Returned (Response.mk 400 (JStr (QuoteJSONString msg)) headers), s') ∧
        store s' = store s ∧ sent s' = sent s.
Proof.
  intros Hk msg. pose proof (dispatch_unsupported event (entry s) Hk) as Hd.
  split; [exact Hd|].
  destruct (handler_response event s) as (s' & Hh & Hst & Hse).
  rewrite Hd in Hh, Hst, Hse. exists s'. now rewrite Hh.
Qed.

(** C4, amended. On the success path and on the failure path alike the
    last action is to serialize [body] with [JSON.stringify], so the
    returned body is never a raw object: it is a string, or it is
    [undefined].  It is a string on every failure and after every delete
    and upsert.  On the two GET routes it is the serialization of the
    [Item] or [Items] of the store's answer, and it is [undefined], with
    status 200, when the answer has none. *)
Theorem body_serialized (event : Event.t) (s : State St) :
  ∃ r s', handler service event s = (Returned r, s') ∧
    Response.body r =
      JSON_stringify (match dispatch service event (entry s) with
                      | (Returned _, s1) => body (locals s1)
                      | (Thrown e, _) => JStr (message e)
                      end) ∧
    (is_string (Response.body r) = true ∨ Response.body r = undefined) ∧
    (Response.statusCode r = 400 → is_string (Response.body r) = true) ∧
    (routing_key event = "DELETE /posts/{id}" ∨ routing_key event = "PUT /posts" →
       is_string (Response.body r) = true) ∧
    (Response.body r = undefined →
       Response.statusCode r = 200 ∧
       (routing_key event = "GET /posts/{id}" ∨ routing_key event = "GET /posts")) ∧
    (∀ id out item st',
       routing_key event = "GET /posts/{id}" →
       get_prop (Event.pathParameters_value event) "id" = inr id →
       service (GetCommand tableName (JObj [("id", id)])) (store s) = (inr out, st') →
       get_prop out "Item" = inr item →
       Response.statusCode r = 200 ∧ Response.body r = JSON_stringify item) ∧
    (∀ out items st',
       routing_key event = "GET /posts" →
       service (ScanCommand tableName) (store s) = (inr out, st') →
       get_prop out "Items" = inr items →
       Response.statusCode r = 200 ∧ Response.body r = JSON_stringify items).
Proof.
  destruct (handler_response event s) as (s' & -> & _).
  eexists _, s'. split; [reflexivity|].
  split; [|split; [|split; [|split; [|split; [|split]]]]].
  - destruct (dispatch service event (entry s)) as [[u|e] s1]; reflexivity.
  - destruct (dispatch service event (entry s)) as [[u|e] s1]; simpl; auto.
    rewrite JSON_stringify_is_string. destruct (body (locals s1)); simpl; auto.
  - destruct (dispatch service event (entry s)) as [[u|e] s1]; simpl; auto.
    discriminate.
  - intros Hk.
    destruct (dispatch service event (entry s)) as [[u|e] s1] eqn:Hd; simpl; auto.
    apply dispatch_returned_body in Hd as [[_ Hb]|Hg].
    + rewrite JSON_stringify_is_string. now destruct (body (locals s1)).
    + destruct Hk as [Hk|Hk], Hg as [Hg|Hg]; congruence.
  - destruct (dispatch service event (entry s)) as [[u|e] s1] eqn:Hd; simpl;
      [|discriminate].
    intros Hb. split; [reflexivity|].
    apply dispatch_returned_body in Hd as [[_ Hs]|Hg]; [|exact Hg].
    apply (proj1 (JSON_stringify_undefined _)) in Hb. rewrite Hb in Hs. discriminate.
  - intros id out item st' Hk Hid Hs Hi.
    destruct (dispatch_get_body event (entry s) id out item st' Hk Hid Hs Hi)
      as (s1 & -> & <-). split; reflexivity.
  - intros out items st' Hk Hs Hi.
    destruct (dispatch_scan_body event (entry s) out items st' Hk Hs Hi)
      as (s1 & -> & <-). split; reflexivity.
Qed.

End Invocation.

(** ** Invocations on the table *)

Section OnTable.
Implicit Types (t : gmap string value) (event : Event.t).

(** An id within the limits of a key is accepted as one. *)
Lemma valid_key_ok (i : string) :
  i ≠ "" → (BlogDb.byte_length i ≤ BlogDb.max_key_size)%Z →
  BlogDb.valid_key i = inr i.
Proof.
  intros Hi Hl. unfold BlogDb.valid_key.
  destruct (decide (i = "")) as [?|_]; [contradiction|].
  destruct (decide (BlogDb.max_key_size < BlogDb.byte_length i)%Z) as [?|_]; [lia|].
  reflexivity.
Qed.

(** A command whose key or item cannot be marshalled fails in the client:
    the endpoint is not reached and the store stays as it is. *)
Lemma client_refuses {St : Type} (endpoint : Command → St → (Error + value) * St)
    (cmd : Command) (v : value) (st : St) :
  marshalled cmd = Some v → marshallable v = false →
  ∃ e, convertToAttr v = Some e ∧ client endpoint cmd st = (inl e, st).
Proof.
  intros Hc Hm. unfold client, marshallable in *. rewrite Hc. simpl.
  destruct (convertToAttr v) as [e|]; [eauto | discriminate].
Qed.

(** Strings, booleans and null are always marshalled, and so is a number
    within the safe integers. *)
Lemma marshallable_scalar (v : value) :
  match v with
  | null | JBool _ | JStr _ => marshallable v = true
  | JNum n =>
      marshallable v = negb (greater_than n MAX_SAFE_INTEGER) &&
                       negb (less_than n (- MAX_SAFE_INTEGER)) &&
                       match n with Infinity _ => false | _ => true end
  | _ => True
  end.
Proof.
  destruct v as [| | |[m e|neg]| | |]; try exact I; try reflexivity.
  - unfold marshallable. cbn [convertToAttr convertToNumberAttr].
    destruct (greater_than (Number m e) MAX_SAFE_INTEGER); [reflexivity|].
    destruct (less_than (Number m e) (- MAX_SAFE_INTEGER)); reflexivity.
  - unfold marshallable. cbn [convertToAttr convertToNumberAttr].
    now destruct neg.
Qed.

Lemma service_get t (i : string) :
  i ≠ "" → (BlogDb.byte_length i ≤ BlogDb.max_key_size)%Z →
  BlogDb.service (GetCommand tableName (JObj [("id", JStr i)])) t =
    (inr (match t !! i with
          | Some item => JObj [("Item", item)]
          | None => JObj []
          end), t).
Proof.
  intros Hne Hl. unfold BlogDb.service, client, BlogDb.table, BlogDb.on_table. simpl.
  rewrite (valid_key_ok i Hne Hl). now destruct (t !! i).
Qed.

Lemma service_delete t (i : string) :
  i ≠ "" → (BlogDb.byte_length i ≤ BlogDb.max_key_size)%Z →
  BlogDb.service (DeleteCommand tableName (JObj [("id", JStr i)])) t =
    (inr (JObj []), delete i t).
Proof.
  intros Hne Hl. unfold BlogDb.service, client, BlogDb.table, BlogDb.on_table. simpl.
  now rewrite (valid_key_ok i Hne Hl).
Qed.

(** The record of a post whose fields are strings is accepted when its id
    can be a key and the record is within the size of an item. *)
Lemma item_key_post (i title description : string) :
  i ≠ "" → (BlogDb.byte_length i ≤ BlogDb.max_key_size)%Z →
  (26 + BlogDb.byte_length i + BlogDb.byte_length title +
   BlogDb.byte_length description ≤ BlogDb.max_item_size)%Z →
  BlogDb.item_key (JObj [("id", JStr i); ("postTitle", JStr title);
                         ("postDescription", JStr description)]) = inr i.
Proof.
  intros Hne Hl Hs. unfold BlogDb.item_key. simpl.
  rewrite (valid_key_ok i Hne Hl).
  change (BlogDb.byte_length "id") with 2%Z.
  change (BlogDb.byte_length "postTitle") with 9%Z.
  change (BlogDb.byte_length "postDescription") with 15%Z.
  destruct (decide _) as [?|_]; [lia | reflexivity].
Qed.

Lemma service_put_post t (i title description : string) :
  i ≠ "" → (BlogDb.byte_length i ≤ BlogDb.max_key_size)%Z →
  (26 + BlogDb.byte_length i + BlogDb.byte_length title +
   BlogDb.byte_length description ≤ BlogDb.max_item_size)%Z →
  let item := JObj [("id", JStr i); ("postTitle", JStr title);
                    ("postDescription", JStr description)] in
  BlogDb.service (PutCommand tableName item) t = (inr (JObj []), <[i := item]> t).
Proof.
  intros Hne Hl Hs item. unfold BlogDb.service, client, BlogDb.table, BlogDb.on_table.
  change (marshalled (PutCommand tableName item) ≫= convertToAttr) with (@None Error).
  unfold item. now rewrite (item_key_post i title description Hne Hl Hs).
Qed.

#[local] Arguments BlogDb.service : simpl never.

Lemma get_on_table event t ps id :
  routing_key event = "GET /posts/{id}" →
  Event.pathParameters event = Some ps →
  assoc "id" ps = Some id →
  id ≠ "" → (BlogDb.byte_length id ≤ BlogDb.max_key_size)%Z →
  invoke BlogDb.service event t =
    (Returned (respond 200 (default undefined (t !! id))), t,
     [GetCommand tableName (JObj [("id", JStr id)])]).
Proof.
  intros Hk Hps Hid Hne Hl. rewrite invoke_run. unfold dispatch. rewrite Hk. simpl.
  unfold_run. rewrite (path_id event ps Hps), Hid. simpl.
  rewrite key_literal, (service_get t id Hne Hl).
  destruct (t !! id) as [item|]; reflexivity.
Qed.

Lemma delete_on_table event t ps id :
  routing_key event = "DELETE /posts/{id}" →
  Event.pathParameters event = Some ps →
  assoc "id" ps = Some id →
  id ≠ "" → (BlogDb.byte_length id ≤ BlogDb.max_key_size)%Z →
  invoke BlogDb.service event t =
    (Returned (respond 200 (JStr ("Deleted item " +:+ id))), delete id t,
     [DeleteCommand tableName (JObj [("id", JStr id)])]).
Proof.
  intros Hk Hps Hid Hne Hl. rewrite invoke_run. unfold dispatch. rewrite Hk. simpl.
  unfold_run. rewrite (path_id event ps Hps), Hid. simpl.
  rewrite key_literal, (service_delete t id Hne Hl). reflexivity.
Qed.

Lemma put_on_table event t v i title description :
  routing_key event = "PUT /posts" →
  JSON_parse (ToString (Event.body_value event)) = inr v →
  get_prop v "id" = inr (JStr i) →
  get_prop v "postTitle" = inr (JStr title) →
  get_prop v "postDescription" = inr (JStr description) →
  i ≠ "" → (BlogDb.byte_length i ≤ BlogDb.max_key_size)%Z →
  (26 + BlogDb.byte_length i + BlogDb.byte_length title +
   BlogDb.byte_length description ≤ BlogDb.max_item_size)%Z →
  let item := JObj [("id", JStr i); ("postTitle", JStr title);
                    ("postDescription", JStr description)] in
  invoke BlogDb.service event t =
    (Returned (respond 200 (JStr ("Put post " +:+ i))), <[i := item]> t,
     [PutCommand tableName item]).
Proof.
  intros Hk Hp Hi Ht Hd Hne Hl Hs item. rewrite invoke_run. unfold dispatch.
  rewrite Hk. simpl.
  unfold_run. rewrite Hp. simpl. rewrite Hi. simpl. rewrite Ht. simpl. rewrite Hd. simpl.
  rewrite item_literal, (service_put_post t i title description Hne Hl Hs).
  reflexivity.
Qed.


(** On the table itself, were the function allowed to delete: for every
    state of the table and every id that can be a key, with or without a
    record under it, DELETE on [/posts/{id}] answers status 200 with the
    confirmation [Deleted item <id>] as JSON text and removes the record.
    A second delete of the same id gives the same response and leaves the
    same table; on a table without the id nothing changes. *)
Lemma delete_idempotent event t ps id :
  routing_key event = "DELETE /posts/{id}" →
  Event.pathParameters event = Some ps →
  assoc "id" ps = Some id →
  id ≠ "" → (BlogDb.byte_length id ≤ BlogDb.max_key_size)%Z →
  let r := Response.mk 200 (JStr (QuoteJSONString ("Deleted item " +:+ id))) headers in
  let cmd := DeleteCommand tableName (JObj [("id", JStr id)]) in
  invoke BlogDb.service event t = (Returned r, delete id t, [cmd]) ∧
  invoke BlogDb.service event (delete id t) = (Returned r, delete id t, [cmd]) ∧
  (t !! id = None → invoke BlogDb.service event t = (Returned r, t, [cmd])).
Proof.
  intros Hk Hps Hid Hne Hl r cmd.
  rewrite !(delete_on_table event _ ps id Hk Hps Hid Hne Hl), delete_delete_eq.
  repeat split. intros Ht. now rewrite (delete_id t id Ht).
Qed.

(** C5, amended. PUT on [/posts] with the body
    [{"id":"1","postTitle":"a","postDescription":"b"}] stores, under the id
    1, the record of exactly those three fields, and answers status 200
    with the body [Put post 1] as JSON text, which names the id. *)
Theorem put_example t :
  let event := Examples.put_posts (Examples.put_body "postTitle" "postDescription") in
  let item := Examples.post "1" "a" "b" in
  invoke BlogDb.service event t =
    (Returned (Response.mk 200 (JStr (quoted "Put post 1")) headers),
     <["1" := item]> t, [PutCommand tableName item]).
Proof.
  intros event item.
  apply (put_on_table event t item "1" "a" "b"); try reflexivity.
  - discriminate.
  - vm_compute. discriminate.
  - vm_compute. discriminate.
Qed.


End OnTable.

(** ** The claims at concrete requests *)

Section Concrete.
Import Examples.

Example scan_one_post :
  invoke BlogDb.service get_posts one_post =
    (Returned (Response.mk 200
       (JStr ("[" +:+ json_object [("id", "1"); ("postTitle", "a");
                                   ("postDescription", "b")] +:+ "]"))
       headers),
     one_post, [ScanCommand tableName]).
Proof. vm_compute. reflexivity. Qed.

Example put_then_get :
  let '(_, t, _) := invoke BlogDb.service (put_posts put_body_extra) ∅ in
  invoke BlogDb.service (get_post "1") t =
    (Returned (Response.mk 200
       (JStr (json_object [("id", "1"); ("postTitle", "a"); ("postDescription", "b")]))
       headers),
     t, [GetCommand tableName (JObj [("id", JStr "1")])]).
Proof. vm_compute. reflexivity. Qed.

(** C1, counterexample. PUT on [/posts] is one of the four defined keys,
    yet with a body that does not parse no store operation is invoked. *)
Lemma malformed_put_sends_nothing :
  assoc (routing_key (put_posts "{")) dispatch_table = Some PutFullRecord ∧
  invoke BlogDb.service (put_posts "{") one_post =
    (Returned (Response.mk 400 (JStr (quoted "Unexpected end of JSON input")) headers),
     one_post, []).
Proof. split; reflexivity. Qed.

Lemma one_store_operation_witness :
  ∃ r s', handler BlogDb.service (get_post "7") (start one_post) = (Returned r, s') ∧
    sent s' = [GetCommand tableName (JObj [("id", JStr "7")])].
Proof.
  destruct (one_store_operation BlogDb.service (get_post "7") (start one_post))
    as (r & s' & cmds & Hh & Hs & _ & _ & _ & Hget & _).
  exists r, s'. split; [exact Hh|].
  rewrite Hs, (Hget [("id", "7")] eq_refl eq_refl). reflexivity.
Defined.

(** C2, counterexample. The upsert of an unparsable body fails with a
    parse error; the response has status 400, but its body is the message
    in JSON quotes, not the message text. *)
Lemma failure_body_not_message :
  ∃ e r,
    dispatch BlogDb.service (put_posts "{") (start ∅) = (Thrown e, start ∅) ∧
    message e = "Unexpected end of JSON input" ∧
    invoke BlogDb.service (put_posts "{") ∅ = (Returned r, ∅, []) ∧
    Response.statusCode r = 400 ∧
    Response.body r = JStr (quoted "Unexpected end of JSON input") ∧
    Response.body r ≠ JStr (message e).
Proof.
  eexists _, _. repeat split; try reflexivity. simpl. discriminate.
Qed.

Lemma failure_gives_400_witness :
  ∃ s', handler BlogDb.service (put_posts "{") (start one_post) =
          (Returned (Response.mk 400
                       (JStr (QuoteJSONString "Unexpected end of JSON input")) headers), s') ∧
        store s' = one_post ∧ sent s' = [].
Proof.
  exact (proj1 (failure_gives_400 BlogDb.service (put_posts "{") (start one_post))
           (SyntaxError "Unexpected end of JSON input") (start one_post) eq_refl).
Defined.

(** C3, counterexample. PATCH on [/posts] gets status 400, but the body is
    not the text [Unsupported route: "PATCH /posts"]: it is that text as a
    JSON string, in quotes of its own and with the inner quotes escaped. *)
Lemma unsupported_body_not_message :
  ∃ r, invoke BlogDb.service patch_posts ∅ = (Returned r, ∅, []) ∧
    Response.statusCode r = 400 ∧
    Response.body r =
      JStr (quoted ("Unsupported route: \" +:+ quoted "PATCH /posts\")) ∧
    Response.body r ≠ JStr ("Unsupported route: " +:+ quoted "PATCH /posts").
Proof.
  eexists. repeat split; try reflexivity. simpl. discriminate.
Qed.

Lemma unsupported_route_witness :
  assoc (routing_key patch_posts) dispatch_table = None ∧
  ∃ s', handler BlogDb.service patch_posts (start one_post) =
          (Returned (Response.mk 400
             (JStr (QuoteJSONString ("Unsupported route: " +:+ quoted "PATCH /posts")))
             headers), s') ∧
        store s' = one_post ∧ sent s' = [].
Proof.
  split; [reflexivity|].
  exact (proj2 (unsupported_route BlogDb.service patch_posts (start one_post) eq_refl)).
Defined.

(** C4, counterexample. GET on [/posts/{id}] for an id that is not in the
    store returns a body that is [undefined], not a string. *)
Lemma get_absent_body_not_string :
  ∃ r, invoke BlogDb.service (get_post "7") one_post =
         (Returned r, one_post, [GetCommand tableName (JObj [("id", JStr "7")])]) ∧
    Response.statusCode r = 200 ∧
    Response.body r = undefined ∧
    is_string (Response.body r) = false.
Proof. eexists. repeat split; reflexivity. Qed.

(** C5, counterexample. With the body
    [{"id":"1","title":"a","description":"b"}] the handler reads
    [postTitle] and [postDescription], which the body does not have: the
    item it sends carries neither [title] nor [description], and no record
    with those fields is in the store afterwards. *)
Lemma put_title_description_not_stored :
  ∃ r t',
    invoke BlogDb.service (put_posts (put_body "title" "description")) ∅ =
      (Returned r, t',
       [PutCommand tableName
          (JObj [("id", JStr "1"); ("postTitle", undefined);
                 ("postDescription", undefined)])]) ∧
    ¬ ∃ item, t' !! "1" = Some item ∧
              property item "title" = JStr "a" ∧
              property item "description" = JStr "b".
Proof.
  eexists _, _. split; [reflexivity|].
  intros (item & Hl & _). vm_compute in Hl. discriminate Hl.
Qed.



Example delete_twice_on_table :
  let r := Response.mk 200 (JStr (quoted "Deleted item 1")) headers in
  let cmd := DeleteCommand tableName (JObj [("id", JStr "1")]) in
  invoke BlogDb.service (delete_post "1") one_post = (Returned r, ∅, [cmd]) ∧
  invoke BlogDb.service (delete_post "1") ∅ = (Returned r, ∅, [cmd]).
Proof.
  assert (Hl : (BlogDb.byte_length "1" ≤ BlogDb.max_key_size)%Z)
    by (vm_compute; discriminate).
  destruct (delete_idempotent (delete_post "1") one_post [("id", "1")] "1"
              eq_refl eq_refl eq_refl ltac:(discriminate) Hl) as (H1 & H2 & _).
  split; [exact H1 | exact H2].
Qed.



(** What the table does not take is answered with status 400 and nothing
    is stored: a number beyond the doubles (read as [Infinity]), a number
    beyond the safe integers, a number below the least magnitude of the
    table, and an empty id. *)
Example put_refused :
  map (fun text => let '(r, t, _) := invoke BlogDb.service (put_posts text) ∅ in
                   match r with
                   | Returned r => (Response.statusCode r, Response.body r, size t)
                   | Thrown _ => (0, undefined, size t)
                   end)
      [json_object [("id", "1"); ("postDescription", "b")] ;
       "{" +:+ quoted "id" +:+ ":" +:+ quoted "1" +:+ "," +:+ quoted "postTitle" +:+
         ":1e400," +:+ quoted "postDescription" +:+ ":" +:+ quoted "b" +:+ "}";
       "{" +:+ quoted "id" +:+ ":" +:+ quoted "1" +:+ "," +:+ quoted "postTitle" +:+
         ":12345678901234567890," +:+ quoted "postDescription" +:+ ":" +:+ quoted "b" +:+ "}";
       "{" +:+ quoted "id" +:+ ":" +:+ quoted "1" +:+ "," +:+ quoted "postTitle" +:+
         ":1e-200," +:+ quoted "postDescription" +:+ ":" +:+ quoted "b" +:+ "}";
       json_object [("id", ""); ("postTitle", "a"); ("postDescription", "b")]]
  = [(400, JStr (QuoteJSONString (message undefined_value)), 0%nat);
     (400, JStr (quoted "Special numeric value Infinity is not allowed"), 0%nat);
     (400, JStr (quoted ("Number 12345678901234567000 is greater than " +:+
                         "Number.MAX_SAFE_INTEGER. Use BigInt.")), 0%nat);
     (400, JStr (QuoteJSONString (message BlogDb.number_underflow)), 0%nat);
     (400, JStr (QuoteJSONString (message BlogDb.empty_key)), 0%nat)].
Proof. vm_compute. reflexivity. Qed.

(** A number within the doubles' precision is stored as the double it is
    read as, and comes back as that. *)
Example put_then_get_number :
  let text := "{" +:+ quoted "id" +:+ ":" +:+ quoted "1" +:+ "," +:+ quoted "postTitle" +:+
              ":0.1234567890123456789," +:+ quoted "postDescription" +:+ ":" +:+
              quoted "b" +:+ "}" in
  let '(_, t, _) := invoke BlogDb.service (put_posts text) ∅ in
  invoke BlogDb.service (get_post "1") t =
    (Returned (Response.mk 200
       (JStr ("{" +:+ quoted "id" +:+ ":" +:+ quoted "1" +:+ "," +:+ quoted "postTitle" +:+
              ":0.12345678901234568," +:+ quoted "postDescription" +:+ ":" +:+
              quoted "b" +:+ "}"))
       headers),
     t, [GetCommand tableName (JObj [("id", JStr "1")])]).
Proof. vm_compute. reflexivity. Qed.

End Concrete.

(** * Further properties of the handler *)

(** ** Whatever the store does *)

Section AnyStore.
Context {St : Type} (service : Command → St → (Error + value) * St).

(** When the [try] block returns, exactly one command went to the store
    and the store accepted it. *)
Lemma dispatch_returned_sent (event : Event.t) (s s1 : State St) (u : unit) :
  dispatch service event s = (Returned u, s1) →
  ∃ cmd out, sent s1 = (sent s ++ [cmd])%list ∧
    service cmd (store s) = (inr out, store s1) ∧
    assoc (routing_key event) dispatch_table = Some (operation cmd).
Proof.
  unfold dispatch.
  destruct (String.eqb_spec (routing_key event) "DELETE /posts/{id}") as [->|?].
  2: destruct (String.eqb_spec (routing_key event) "GET /posts/{id}") as [->|?].
  3: destruct (String.eqb_spec (routing_key event) "GET /posts") as [->|?].
  4: destruct (String.eqb_spec (routing_key event) "PUT /posts") as [->|?].
  all: unfold_run; case_calls service; unfold_run; simpl; intros H; try discriminate H.
  all: simplify_eq; simpl; eexists _, _; repeat split; first [eassumption | reflexivity].
Qed.

(** X1. A response with status 200 is never given without a store call
    that succeeded: exactly one command was sent, it is the one of the
    routing key, the store accepted it, and the store is left in the state
    that call produced. *)
Theorem success_means_store_accepted (event : Event.t) (s s' : State St)
    (r : Response.t) :
  handler service event s = (Returned r, s') →
  Response.statusCode r = 200 →
  ∃ cmd out, sent s' = (sent s ++ [cmd])%list ∧
    service cmd (store s) = (inr out, store s') ∧
    assoc (routing_key event) dispatch_table = Some (operation cmd).
Proof.
  rewrite handler_run.
  destruct (dispatch service event (entry s)) as [[u|e] s1] eqn:Hd; simpl;
    intros H Hc; simplify_eq.
  apply dispatch_returned_sent in Hd as (cmd & out & Hs & Hr & Hop).
  exists cmd, out. auto.
Qed.

(** X2. GET or DELETE on [/posts/{id}] for a request that carries no path
    parameters fails reading [id] of null: status 400, the TypeError's
    message as JSON text, nothing sent to the store. *)
Theorem item_route_without_path_parameters (event : Event.t) (s : State St) :
  routing_key event = "GET /posts/{id}" ∨ routing_key event = "DELETE /posts/{id}" →
  Event.pathParameters event = None →
  ∃ s', handler service event s =
          (Returned (Response.mk 400
             (JStr (quoted "Cannot read properties of null (reading 'id')")) headers), s') ∧
        store s' = store s ∧ sent s' = sent s.
Proof.
  intros Hk Hp. rewrite handler_run.
  assert (Hd : dispatch service event (entry s) =
                 (Thrown (TypeError "Cannot read properties of null (reading 'id')"),
                  entry s)).
  { unfold dispatch, Event.pathParameters_value. rewrite Hp.
    destruct Hk as [-> | ->]; reflexivity. }
  rewrite Hd. eexists. repeat split.
Qed.

(** X3. PUT on [/posts] without a body, or with the body [null], fails
    reading [id] of null: status 400, nothing sent to the store. *)
Theorem put_without_body (event : Event.t) (s : State St) :
  routing_key event = "PUT /posts" →
  Event.body event = None ∨
    (∃ text, Event.body event = Some text ∧ JSON_parse text = inr null) →
  ∃ s', handler service event s =
          (Returned (Response.mk 400
             (JStr (quoted "Cannot read properties of null (reading 'id')")) headers), s') ∧
        store s' = store s ∧ sent s' = sent s.
Proof.
  intros Hk Hb. rewrite handler_run.
  assert (Hp : JSON_parse (ToString (Event.body_value event)) = inr null).
  { unfold Event.body_value. destruct Hb as [-> | (text & -> & Hp)]; [reflexivity | exact Hp]. }
  assert (Hd : dispatch service event (entry s) =
                 (Thrown (TypeError "Cannot read properties of null (reading 'id')"),
                  entry s)).
  { unfold dispatch. rewrite Hk. simpl. unfold_run. now rewrite Hp. }
  rewrite Hd. eexists. repeat split.
Qed.

End AnyStore.

Lemma item_route_without_path_parameters_witness :
  ∃ s', handler BlogDb.service (Event.mk "DELETE" "/posts/{id}" None None)
          (Examples.start Examples.one_post) =
          (Returned (Response.mk 400
             (JStr (quoted "Cannot read properties of null (reading 'id')")) headers), s') ∧
        store s' = Examples.one_post ∧ sent s' = [].
Proof.
  exact (item_route_without_path_parameters BlogDb.service
           (Event.mk "DELETE" "/posts/{id}" None None)
           (Examples.start Examples.one_post) (or_intror eq_refl) eq_refl).
Defined.

Lemma put_without_body_witness :
  ∃ s', handler BlogDb.service (Event.mk "PUT" "/posts" None None)
          (Examples.start Examples.one_post) =
          (Returned (Response.mk 400
             (JStr (quoted "Cannot read properties of null (reading 'id')")) headers), s') ∧
        store s' = Examples.one_post ∧ sent s' = [].
Proof.
  exact (put_without_body BlogDb.service (Event.mk "PUT" "/posts" None None)
           (Examples.start Examples.one_post) eq_refl (or_introl eq_refl)).
Defined.

Lemma success_means_store_accepted_witness :
  ∃ cmd out,
    [DeleteCommand tableName (JObj [("id", JStr "1")])] = [cmd] ∧
    BlogDb.service cmd Examples.one_post = (inr out, ∅) ∧
    assoc "DELETE /posts/{id}" dispatch_table = Some (operation cmd).
Proof.
  exact (success_means_store_accepted BlogDb.service (Examples.delete_post "1")
           (Examples.start Examples.one_post)
           (mkState (mkLocals (JStr (quoted "Deleted item 1")) 200) ∅
              [DeleteCommand tableName (JObj [("id", JStr "1")])])
           (Response.mk 200 (JStr (quoted "Deleted item 1")) headers)
           eq_refl eq_refl).
Defined.

(** ** On the table *)

Section MoreOnTable.
Implicit Types (t : gmap string value) (event : Event.t).

Lemma valid_key_inr (i j : string) : BlogDb.valid_key i = inr j → j = i.
Proof. unfold BlogDb.valid_key. repeat case_match; congruence. Qed.

(** What the table does with a command: it rejects it and stays as it is,
    or it answers with an object; only a put and a delete change it. *)
Lemma table_cases cmd t r t' :
  BlogDb.table cmd t = (r, t') →
  (∃ e, r = inl e ∧ t' = t) ∨
  (∃ ps, r = inr (JObj ps) ∧
     match cmd with
     | PutCommand _ item => ∃ i, property item "id" = JStr i ∧ t' = <[i := item]> t
     | DeleteCommand _ key => ∃ i, key = JObj [("id", JStr i)] ∧ t' = delete i t
     | _ => t' = t
     end).
Proof.
  destruct cmd as [name key|name key|name|name item]; simpl; unfold BlogDb.on_table.
  all: destruct (String.eqb name BlogDb.tableName); simpl.
  all: try (intros H; simplify_eq; left; eauto; fail).
  - unfold BlogDb.key_of.
    destruct key as [| | | | | |[|[k [| | | |i| |]] [|]]]; simpl;
      try (intros H; simplify_eq; left; eauto; fail).
    destruct (String.eqb_spec k "id") as [->|]; [|intros H; simplify_eq; left; eauto].
    destruct (BlogDb.valid_key i) as [e|j] eqn:Hv; intros H; simplify_eq;
      [left; eauto|].
    apply valid_key_inr in Hv as ->. right. eauto.
  - unfold BlogDb.key_of.
    destruct key as [| | | | | |[|[k [| | | |i| |]] [|]]]; simpl;
      try (intros H; simplify_eq; left; eauto; fail).
    destruct (String.eqb_spec k "id") as [->|]; [|intros H; simplify_eq; left; eauto].
    destruct (BlogDb.valid_key i) as [e|j] eqn:Hv; [intros H; simplify_eq; left; eauto|].
    destruct (t !! j); intros H; simplify_eq; right; eauto.
  - intros H; simplify_eq. right. eauto.
  - unfold BlogDb.item_key, BlogDb.check.
    destruct item as [| | | | | |ps];
      try (intros H; simplify_eq; left; eauto; fail).
    destruct (BlogDb.value_error (JObj ps)); [intros H; simplify_eq; left; eauto|].
    destruct (decide _); [intros H; simplify_eq; left; eauto|].
    simpl. unfold own.
    destruct (assoc "id" ps) as [[| | | |i| |]|];
      try (intros H; simplify_eq; left; eauto; fail).
    destruct (BlogDb.valid_key i) as [e|j] eqn:Hv; [intros H; simplify_eq; left; eauto|].
    apply valid_key_inr in Hv as ->.
    destruct (decide _); intros H; simplify_eq; [left; eauto|].
    right. eauto.
Qed.

Lemma service_cases cmd t r t' :
  BlogDb.service cmd t = (r, t') →
  (∃ e, r = inl e ∧ t' = t) ∨
  (∃ ps, r = inr (JObj ps) ∧
     match cmd with
     | PutCommand _ item => ∃ i, property item "id" = JStr i ∧ t' = <[i := item]> t
     | DeleteCommand _ key => ∃ i, key = JObj [("id", JStr i)] ∧ t' = delete i t
     | _ => t' = t
     end).
Proof.
  unfold BlogDb.service, client.
  destruct (marshalled cmd ≫= convertToAttr).
  - intros H. simplify_eq. left. eauto.
  - apply table_cases.
Qed.

#[local] Arguments BlogDb.service : simpl never.

(** How an invocation leaves the table: as it was, or changed by the one
    delete or put that the store accepted. *)
Lemma invoke_table event t r t' cmds :
  invoke BlogDb.service event t = (Returned r, t', cmds) →
  t' = t ∨
  (Response.statusCode r = 200 ∧
   ∃ i,
     (routing_key event = "DELETE /posts/{id}" ∧
      cmds = [DeleteCommand tableName (JObj [("id", JStr i)])] ∧
      t' = delete i t) ∨
     (routing_key event = "PUT /posts" ∧
      ∃ item, cmds = [PutCommand tableName item] ∧
        property item "id" = JStr i ∧ t' = <[i := item]> t)).
Proof.
  rewrite invoke_run. unfold dispatch.
  destruct (String.eqb_spec (routing_key event) "DELETE /posts/{id}") as [Hk|?].
  2: destruct (String.eqb_spec (routing_key event) "GET /posts/{id}") as [Hk|?].
  3: destruct (String.eqb_spec (routing_key event) "GET /posts") as [Hk|?].
  4: destruct (String.eqb_spec (routing_key event) "PUT /posts") as [Hk|?].
  all: unfold_run; simpl.
  all: repeat match goal with
       | |- context [match get_prop ?v ?k with _ => _ end] =>
           destruct (get_prop v k) eqn:?; simpl
       | |- context [match JSON_parse ?x with _ => _ end] =>
           destruct (JSON_parse x) eqn:?; simpl
       | |- context [BlogDb.service ?c ?st] =>
           let H := fresh "Hs" in
           destruct (BlogDb.service c st) as [? ?] eqn:H;
           apply service_cases in H as [(? & -> & ->)|(? & -> & H)]; simpl
       end.
  all: intros H; simplify_eq; simpl; auto.
  - destruct Hs as (i & Hkey & ->). right. split; [reflexivity|].
    exists i. left. rewrite Hkey. auto.
  - destruct Hs as (i & Hid & ->). right. split; [reflexivity|].
    exists i. right. eauto.
Qed.

(** X4. An invocation changes the table only by a delete or an upsert
    that succeeds: a failed invocation (status 400) and every GET leave the
    table exactly as it was. *)
Theorem table_changes_only_on_successful_write event t r t' cmds :
  invoke BlogDb.service event t = (Returned r, t', cmds) →
  (Response.statusCode r = 400 → t' = t) ∧
  (routing_key event = "GET /posts" ∨ routing_key event = "GET /posts/{id}" → t' = t) ∧
  (t' ≠ t →
     Response.statusCode r = 200 ∧
     (routing_key event = "DELETE /posts/{id}" ∨ routing_key event = "PUT /posts")).
Proof.
  intros H. apply invoke_table in H as [->|(Hc & i & [(Hk & _)|(Hk & _)])].
  - repeat split; intros; congruence.
  - repeat split; try (intros; congruence).
    + intros [?|?]; congruence.
    + auto.
  - repeat split; try (intros; congruence).
    + intros [?|?]; congruence.
    + auto.
Qed.

(** X5. An invocation touches at most one record: there is an id such
    that every record under another id is after the invocation what it was
    before, and when the table changed that id is the one named in the
    single command sent. *)
Theorem one_record_touched event t r t' cmds :
  invoke BlogDb.service event t = (Returned r, t', cmds) →
  ∃ i, (∀ j, j ≠ i → t' !! j = t !! j) ∧
       (t' ≠ t →
          cmds = [DeleteCommand tableName (JObj [("id", JStr i)])] ∧ t' !! i = None ∨
          ∃ item, cmds = [PutCommand tableName item] ∧
                  property item "id" = JStr i ∧ t' !! i = Some item).
Proof.
  intros H. apply invoke_table in H as [->|(Hc & i & [(Hk & -> & ->)|(Hk & item & -> & Hi & ->)])].
  - exists "". split; [reflexivity | congruence].
  - exists i. split.
    + intros j Hj. now apply lookup_delete_ne.
    + intros _. left. split; [reflexivity | apply lookup_delete_eq].
  - exists i. split.
    + intros j Hj. now apply lookup_insert_ne.
    + intros _. right. exists item. repeat split; [exact Hi | apply lookup_insert_eq].
Qed.

(** An upsert of a post that the table takes is accepted. *)
Lemma put_accepted event t v i title description :
  routing_key event = "PUT /posts" →
  JSON_parse (ToString (Event.body_value event)) = inr v →
  Post.complete v i title description →
  invoke BlogDb.service event t =
    (Returned (respond 200 (JStr ("Put post " +:+ i))),
     <[i := Post.of_body v]> t, [PutCommand tableName (Post.of_body v)]).
Proof.
  intros Hk Hp (Hi & Ht & Hd & Hne & Hl & Hs).
  assert (Hu : v ≠ undefined) by (intros ->; discriminate Hi).
  assert (Hn : v ≠ null) by (intros ->; discriminate Hi).
  unfold Post.of_body. rewrite Hi, Ht, Hd.
  apply (put_on_table event t v i title description); try assumption.
  all: rewrite get_prop_defined by assumption; congruence.
Qed.

(** X6. Round trip of a record.  After an upsert whose body names a post
    that the table takes (three strings, an id that can be a key, a record
    within the size of an item), GET on [/posts/{id}] with that id answers
    status 200 and, as body, the JSON text of exactly the three-field
    record that was built from the body. *)
Theorem put_get_round_trip put get t v i title description ps :
  routing_key put = "PUT /posts" →
  JSON_parse (ToString (Event.body_value put)) = inr v →
  Post.complete v i title description →
  routing_key get = "GET /posts/{id}" →
  Event.pathParameters get = Some ps →
  assoc "id" ps = Some i →
  ∃ r t1 cmds,
    invoke BlogDb.service put t = (Returned r, t1, cmds) ∧
    Response.statusCode r = 200 ∧
    Post.of_body v = Examples.post i title description ∧
    invoke BlogDb.service get t1 =
      (Returned (Response.mk 200 (JStr (serialize (Post.of_body v))) headers), t1,
       [GetCommand tableName (JObj [("id", JStr i)])]).
Proof.
  intros Hk Hp Hc Hg Hps Hid.
  eexists _, _, _. split; [exact (put_accepted put t v i title description Hk Hp Hc)|].
  split; [reflexivity|].
  destruct Hc as (Hi & Ht & Hd & Hne & Hl & _). split.
  - unfold Post.of_body. now rewrite Hi, Ht, Hd.
  - rewrite (get_on_table get _ ps i Hg Hps Hid Hne Hl), lookup_insert_eq. reflexivity.
Qed.

(** X7. The last upsert wins.  Two upserts, with the same id, of posts
    that the table takes leave the table as the second one alone would:
    nothing of the first record survives, and every other record is
    untouched. *)
Theorem put_overwrites put1 put2 t v1 v2 i title1 description1 title2 description2 :
  routing_key put1 = "PUT /posts" →
  JSON_parse (ToString (Event.body_value put1)) = inr v1 →
  Post.complete v1 i title1 description1 →
  routing_key put2 = "PUT /posts" →
  JSON_parse (ToString (Event.body_value put2)) = inr v2 →
  Post.complete v2 i title2 description2 →
  let t1 := (invoke BlogDb.service put1 t).1.2 in
  let t2 := (invoke BlogDb.service put2 t1).1.2 in
  t2 = (invoke BlogDb.service put2 t).1.2 ∧
  t2 !! i = Some (Post.of_body v2) ∧
  ∀ j, j ≠ i → t2 !! j = t !! j.
Proof.
  intros Hk1 Hp1 Hc1 Hk2 Hp2 Hc2 t1 t2. unfold t2, t1.
  rewrite (put_accepted put1 t v1 i _ _ Hk1 Hp1 Hc1). simpl.
  rewrite !(put_accepted put2 _ v2 i _ _ Hk2 Hp2 Hc2). simpl.
  rewrite insert_insert_eq. split; [reflexivity|]. split.
  - apply lookup_insert_eq.
  - intros j Hj. now apply lookup_insert_ne.
Qed.


End MoreOnTable.

(** * The handler of the items API *)

Ltac case_item_calls service :=
  repeat (simpl;
    match goal with
    | |- context [match Items.get_prop ?v ?k with _ => _ end] =>
        destruct (Items.get_prop v k) eqn:?
    | |- context [match JSON_parse ?t with _ => _ end] =>
        destruct (JSON_parse t) eqn:?
    | |- context [service ?c ?st] =>
        destruct (service c st) as [[?|?] ?] eqn:?
    end).

(** A routing key made of a path below [/items/] equals one of the four
    keys of the switch only when the last segment is the text [{id}]. *)
Lemma items_key_literal (m id lit : string) :
  lit ∈ ["DELETE /items/{id}"; "GET /items/{id}"; "GET /items"; "PUT /items"] →
  m +:+ " " +:+ "/items/" +:+ id = lit → id = "{id}".
Proof.
  intros Hl H.
  repeat (apply elem_of_cons in Hl as [->|Hl]); [| | | |inversion Hl].
  all: repeat (destruct m as [|? m];
         [ first [discriminate H | injection H as H; exact H]
         | first [discriminate H | injection H as -> H] ]).
Qed.

Lemma items_literal (x y z : value) :
  object_literal [("id", x); ("price", y); ("name", z)] =
    JObj [("id", x); ("price", y); ("name", z)].
Proof. reflexivity. Qed.

Section ItemsAnyStore.
Context {St : Type} (service : Command → St → (Error + value) * St).

Lemma items_handler_run (event : ItemsEvent.t) (s : State St) :
  Items.handler service event s =
    match Items.dispatch service event (entry s) with
    | (Returned _, s1) =>
        let l := locals s1 in
        (Returned (Response.mk (statusCode l) (JSON_stringify (body l)) Items.headers),
         mkState (mkLocals (JSON_stringify (body l)) (statusCode l)) (store s1) (sent s1))
    | (Thrown e, s1) =>
        (Returned (Response.mk 400 (JStr (QuoteJSONString (message e))) Items.headers),
         mkState (mkLocals (JSON_stringify (JStr (message e))) 400) (store s1) (sent s1))
    end.
Proof.
  unfold Items.handler, try_catch_finally, entry. unfold_run. simpl.
  destruct (Items.dispatch service event _) as [[u|e] s1]; reflexivity.
Qed.

(** The [try] block of the items handler never assigns [statusCode] and
    sends at most one command. *)
Lemma items_dispatch_frame (event : ItemsEvent.t) (s s1 : State St) (o : Outcome unit) :
  Items.dispatch service event s = (o, s1) →
  statusCode (locals s1) = statusCode (locals s) ∧
  ∃ cmds, sent s1 = (sent s ++ cmds)%list ∧ (length cmds ≤ 1)%nat.
Proof.
  unfold Items.dispatch.
  destruct (String.eqb (Items.routing_key event) "DELETE /items/{id}").
  2: destruct (String.eqb (Items.routing_key event) "GET /items/{id}").
  3: destruct (String.eqb (Items.routing_key event) "GET /items").
  4: destruct (String.eqb (Items.routing_key event) "PUT /items").
  all: unfold_run; case_item_calls service; unfold_run; simpl; intros H.
  all: simplify_eq; simpl; split; [reflexivity|].
  all: first [ exists []; rewrite app_nil_r; split; [reflexivity | simpl; lia]
             | eexists [_]; split; [reflexivity | simpl; lia] ].
Qed.

(** X10. The items handler always returns a response: its status code is
    200 when the operation completed and 400 when it threw, the body on a
    failure is the JSON text of the error's message, the headers are the
    same four-entry map on every path, and at most one command is sent. *)
Theorem items_response_shape (event : ItemsEvent.t) (s : State St) :
  ∃ r s' cmds, Items.handler service event s = (Returned r, s') ∧
    Response.headers r = Items.headers ∧
    sent s' = (sent s ++ cmds)%list ∧ (length cmds ≤ 1)%nat ∧
    match Items.dispatch service event (entry s) with
    | (Returned _, s1) =>
        Response.statusCode r = 200 ∧
        Response.body r = JSON_stringify (body (locals s1))
    | (Thrown e, _) =>
        Response.statusCode r = 400 ∧
        Response.body r = JStr (QuoteJSONString (message e))
    end.
Proof.
  rewrite items_handler_run.
  destruct (Items.dispatch service event (entry s)) as [[u|e] s1] eqn:Hd.
  all: apply items_dispatch_frame in Hd as (Hc & cmds & Hs & Hl).
  all: eexists _, _, cmds; split; [reflexivity|]; simpl in *.
  all: rewrite ?Hc; auto.
Qed.

(** X11. The items handler compares [event.path], the path as requested,
    with the route templates.  A request for [/items/<id>] therefore
    reaches no case of the switch unless the id is the text [{id}] itself:
    whatever the method, it is answered with status 400 and the message
    [Unsupported route], and nothing is sent to the store. *)
Theorem items_path_with_id_unsupported (event : ItemsEvent.t) (s : State St)
    (id : string) :
  ItemsEvent.path event = "/items/" +:+ id →
  id ≠ "{id}" →
  ∃ s', Items.handler service event s =
          (Returned (Response.mk 400
             (JStr (QuoteJSONString
                      ("Unsupported route: " +:+ quoted (Items.routing_key event))))
             Items.headers), s') ∧
        store s' = store s ∧ sent s' = sent s.
Proof.
  intros Hp Hid. rewrite items_handler_run.
  assert (Hne : ∀ lit,
            lit ∈ ["DELETE /items/{id}"; "GET /items/{id}"; "GET /items"; "PUT /items"] →
            String.eqb (Items.routing_key event) lit = false).
  { intros lit Hl. apply String.eqb_neq. intros Hk. apply Hid.
    apply (items_key_literal (ItemsEvent.httpMethod event) id lit Hl).
    unfold Items.routing_key in Hk. now rewrite Hp in Hk. }
  unfold Items.dispatch.
  rewrite !Hne by (repeat first [apply list_elem_of_here | apply list_elem_of_further]).
  simpl. eexists. repeat split.
Qed.

(** X12. The two GET cases of the items handler return the store's whole
    answer, not the item in it: when the store answers, the response has
    status 200 and its body is the serialization of that answer, a string
    whenever the answer is not [undefined]. *)
Theorem items_get_returns_whole_answer (event : ItemsEvent.t) (s : State St)
    (cmd : Command) (out : value) (st' : St) :
  (Items.routing_key event = "GET /items" ∧ cmd = ScanCommand Items.ownTable) ∨
  (∃ id, Items.routing_key event = "GET /items/{id}" ∧
         Items.get_prop (ItemsEvent.pathParameters_value event) "id" = inr id ∧
         cmd = GetCommand Items.ownTable (JObj [("id", id)])) →
  service cmd (store s) = (inr out, st') →
  ∃ s', Items.handler service event s =
          (Returned (Response.mk 200 (JSON_stringify out) Items.headers), s') ∧
        store s' = st' ∧ sent s' = (sent s ++ [cmd])%list ∧
        (out ≠ undefined → JSON_stringify out = JStr (serialize out)).
Proof.
  intros Hk Hs. rewrite items_handler_run. unfold Items.dispatch.
  destruct Hk as [[Hk ->]|(id & Hk & Hid & ->)]; rewrite Hk; simpl; unfold_run.
  - unfold Items.ownTable in *. simpl. rewrite Hs. simpl.
    eexists. repeat split. now destruct out.
  - rewrite Hid. simpl. rewrite ?key_literal. unfold Items.ownTable in *.
    rewrite Hs. simpl. eexists. repeat split. now destruct out.
Qed.

(** X13. For every PUT on [/items] whose body parses to a value other
    than null, the record sent to the store has exactly the fields [id],
    [price] and [name] with the values of the parsed body; when the store
    accepts it the response is status 200 with the JSON text of
    [Put item <id>]. *)
Theorem items_put_record (event : ItemsEvent.t) (s : State St) (v : value) :
  Items.routing_key event = "PUT /items" →
  JSON_parse (ToString (ItemsEvent.body_value event)) = inr v →
  v ≠ null →
  let cmd := PutCommand Items.ownTable (Items.item_of_body v) in
  ∃ r s', Items.handler service event s = (Returned r, s') ∧
    sent s' = (sent s ++ [cmd])%list ∧
    store s' = (service cmd (store s)).2 ∧
    ∀ out st', service cmd (store s) = (inr out, st') →
      r = Response.mk 200
            (JStr (QuoteJSONString ("Put item " +:+ ToString (property v "id"))))
            Items.headers.
Proof.
  intros Hk Hp Hn cmd. pose proof (JSON_parse_defined _ _ Hp) as Hu.
  assert (Hg : ∀ k, Items.get_prop v k = inr (property v k)).
  { intros k. destruct v; simpl; congruence. }
  rewrite items_handler_run. unfold Items.dispatch. rewrite Hk. simpl.
  unfold_run. rewrite Hp. simpl. rewrite !Hg. simpl. rewrite !items_literal.
  fold (Items.item_of_body v). unfold Items.ownTable in *. fold cmd.
  destruct (service cmd (store s)) as [[e|out] st1] eqn:Hs; simpl.
  - eexists _, _. repeat split. intros out st' H. discriminate H.
  - eexists _, _. repeat split.
Qed.

End ItemsAnyStore.

(** * The stacks and the handlers *)

Section Wiring.
Import Cdk.

(** A routing key equal to one of the four keys of the switch splits in
    one way only into a method and a resource. *)
Lemma routing_key_split (m r : string) (k : string * Operation) :
  k ∈ dispatch_table →
  m +:+ " " +:+ r = k.1 →
  (m, r) ∈ [("GET", "/posts"); ("PUT", "/posts"); ("GET", "/posts/{id}");
            ("DELETE", "/posts/{id}")] ∧
  m +:+ " " +:+ r = k.1.
Proof.
  intros Hk H. split; [|exact H]. unfold dispatch_table in Hk.
  repeat (apply elem_of_cons in Hk as [->|Hk]); [| | | |inversion Hk].
  all: simpl in H.
  all: repeat (destruct m as [|? m];
         [ first [discriminate H
                 | injection H as H; change (String.append "" r) with r in H; subst r]
         | first [discriminate H | injection H as -> H] ]).
  all: repeat first [apply list_elem_of_here | apply list_elem_of_further].
Qed.

Lemma assoc_elem {A} (k : string) (x : A) (l : list (string * A)) :
  assoc k l = Some x → (k, x) ∈ l.
Proof.
  induction l as [|[k' y] l IH]; simpl; [discriminate|].
  destruct (String.eqb_spec k' k) as [->|_].
  - intros H. simplify_eq. apply list_elem_of_here.
  - intros H. apply list_elem_of_further. auto.
Qed.

(** X14. In both versions of the blog stack the methods that invoke the
    function are exactly the requests the switch of the handler has a case
    for: a request has the verb and resource of a declared method
    integrated with the function if and only if its routing key is one of
    the four keys of the dispatch table.  The other methods of the API are
    the preflight OPTIONS methods, on the root and on both resources; they
    are answered by the mock integration and have no case in the switch. *)
Theorem blog_routes_are_dispatched (st : Stack) (event : Event.t) :
  st = blog_stack ∨ st = blog_stack_open_list →
  ((∃ m, m ∈ methods st ∧ integration m = LambdaIntegration ∧
         Event.httpMethod event = httpMethod m ∧
         Event.resource event = resourcePath m)
   ↔ (∃ op, assoc (routing_key event) dispatch_table = Some op)) ∧
  (∀ m, m ∈ methods st →
     integration m = MockIntegration ↔ httpMethod m = "OPTIONS") ∧
  (∀ m, m ∈ methods st → integration m = MockIntegration →
     authorizationType m = NONE ∧
     resourcePath m ∈ ["/"; "/posts"; "/posts/{id}"] ∧
     assoc (httpMethod m +:+ " " +:+ resourcePath m) dispatch_table = None).
Proof.
  intros Hst. split; [split|split].
  - intros (m & Hm & Hi & Hv & Hr). unfold routing_key. rewrite Hv, Hr.
    destruct Hst as [-> | ->]; vm_compute in Hm.
    all: repeat (apply elem_of_cons in Hm as [->|Hm]); try discriminate Hi;
      [| | | |inversion Hm].
    all: eexists; reflexivity.
  - intros (op & Ha). apply assoc_elem in Ha.
    destruct (routing_key_split (Event.httpMethod event) (Event.resource event)
                (routing_key event, op) Ha eq_refl) as [Hin _].
    assert (Hmr : ∃ m, m ∈ methods st ∧ integration m = LambdaIntegration ∧
                       (Event.httpMethod event, Event.resource event) =
                         (httpMethod m, resourcePath m)).
    { repeat (apply elem_of_cons in Hin as [->|Hin]); [| | | |inversion Hin].
      all: destruct Hst as [-> | ->].
      all: eexists (mkMethod _ _ _ _); split; [|split; reflexivity].
      all: vm_compute.
      all: repeat first [apply list_elem_of_here | apply list_elem_of_further]. }
    destruct Hmr as (m & Hm & Hi & Heq). exists m. injection Heq as -> ->. auto.
  - intros m Hm. destruct Hst as [-> | ->]; vm_compute in Hm.
    all: repeat (apply elem_of_cons in Hm as [->|Hm]); [| | | | | | |inversion Hm].
    all: simpl; split; intros H; first [reflexivity | discriminate H].
  - intros m Hm Hi. destruct Hst as [-> | ->]; vm_compute in Hm.
    all: repeat (apply elem_of_cons in Hm as [->|Hm]); try discriminate Hi;
      [| | |inversion Hm].
    all: split; [reflexivity|]; split; [|reflexivity].
    all: repeat first [apply list_elem_of_here | apply list_elem_of_further].
Qed.

(** X15. Every command the handler sends, whatever the request and the
    store, names the table the blog stack declares, and its key or item
    leads with the attribute the stack declares as partition key. *)
Theorem commands_address_the_table {St : Type}
    (service : Command → St → (Error + value) * St)
    (st : Stack) (event : Event.t) (s : State St) :
  st = blog_stack ∨ st = blog_stack_open_list →
  ∃ r s' cmds, handler service event s = (Returned r, s') ∧
    sent s' = (sent s ++ cmds)%list ∧
    ∀ cmd, cmd ∈ cmds → Deployed.addresses (table st) cmd.
Proof.
  intros Hst.
  assert (Ht : table st = mkTable "blogdb" ("id", STRING))
    by (destruct Hst as [-> | ->]; reflexivity).
  rewrite Ht. clear Ht Hst.
  destruct (handler_response service event s) as (s' & -> & _ & Hsent).
  eexists _, s'. rewrite Hsent. clear Hsent.
  assert (H : ∃ cmds, sent (dispatch service event (entry s)).2 = (sent s ++ cmds)%list ∧
                ∀ cmd, cmd ∈ cmds →
                  Deployed.addresses (mkTable "blogdb" ("id", STRING)) cmd).
  { unfold dispatch.
    destruct (String.eqb (routing_key event) "DELETE /posts/{id}").
    2: destruct (String.eqb (routing_key event) "GET /posts/{id}").
    3: destruct (String.eqb (routing_key event) "GET /posts").
    4: destruct (String.eqb (routing_key event) "PUT /posts").
    all: unfold_run; case_calls service; unfold_run; simpl.
    all: first [ exists []; rewrite app_nil_r; split; [reflexivity|];
                 intros cmd Hin; inversion Hin
               | eexists [_]; split; [reflexivity|];
                 intros cmd Hin; apply list_elem_of_singleton in Hin as ->;
                 split; [reflexivity | simpl; eauto] ]. }
  destruct H as (cmds & Hs & Hc). exists cmds. auto.
Qed.

Section UnderPolicy.
Context (denied : Command → Error).
Implicit Types (t : gmap string value) (event : Event.t).

#[local] Arguments Deployed.blog_table : simpl never.

(** What the table does under the policy of the blog stack: every delete
    is rejected, and so is every command for another table; what is let
    through is done as the table does it. *)
Lemma blog_table_cases cmd t r t' :
  Deployed.blog_table denied cmd t = (r, t') →
  (∃ e, r = inl e ∧ t' = t) ∨
  (∃ ps, r = inr (JObj ps) ∧
     match cmd with
     | PutCommand _ item => ∃ i, property item "id" = JStr i ∧ t' = <[i := item]> t
     | DeleteCommand _ _ => False
     | _ => t' = t
     end).
Proof.
  unfold Deployed.blog_table, client.
  destruct (marshalled cmd ≫= convertToAttr); [intros H; simplify_eq; left; eauto|].
  unfold Iam.guarded.
  destruct (Iam.allows (policy blog_stack) cmd) eqn:Ha.
  - intros H. destruct cmd; [discriminate Ha| | |];
      apply table_cases in H as [?|(ps & -> & ?)]; eauto.
  - intros H. simplify_eq. left. eauto.
Qed.

(** Scan, get and put on the table pass the policy. *)
Lemma blog_table_passes (c : Command) :
  operation c ≠ DeleteByKey → Iam.table_of c = "blogdb" →
  Deployed.blog_table denied c = BlogDb.service c.
Proof.
  intros Hop Ht. unfold Deployed.blog_table, BlogDb.service, client, Iam.guarded.
  destruct c; simpl in Ht; subst; first [contradiction | reflexivity].
Qed.

Lemma invoke_blog_table event t r t' cmds :
  invoke (Deployed.blog_table denied) event t = (Returned r, t', cmds) →
  t' = t ∨ ∃ i item, t' = <[i := item]> t.
Proof.
  rewrite invoke_run. unfold dispatch.
  destruct (String.eqb (routing_key event) "DELETE /posts/{id}").
  2: destruct (String.eqb (routing_key event) "GET /posts/{id}").
  3: destruct (String.eqb (routing_key event) "GET /posts").
  4: destruct (String.eqb (routing_key event) "PUT /posts").
  all: unfold_run; simpl.
  all: repeat match goal with
       | |- context [match get_prop ?v ?k with _ => _ end] =>
           destruct (get_prop v k) eqn:?; simpl
       | |- context [match JSON_parse ?x with _ => _ end] =>
           destruct (JSON_parse x) eqn:?; simpl
       | |- context [Deployed.blog_table denied ?c ?st] =>
           let H := fresh "Hs" in
           destruct (Deployed.blog_table denied c st) as [? ?] eqn:H;
           apply blog_table_cases in H as [(? & -> & ->)|(? & -> & H)]; simpl
       end.
  all: intros H; simplify_eq; simpl; auto.
  all: try contradiction.
  destruct Hs as (i & _ & ->). right. eauto.
Qed.

(** X16. The policy the blog stack gives the function's role lists no
    delete action.  With the table behind that policy, DELETE on
    [/posts/{id}] is always answered with status 400 and the message of the
    denial, and the table keeps the record; scan, get and put on the table
    are let through unchanged. *)
Theorem delete_denied_by_policy event t ps id :
  routing_key event = "DELETE /posts/{id}" →
  Event.pathParameters event = Some ps →
  assoc "id" ps = Some id →
  let cmd := DeleteCommand Handler.tableName (JObj [("id", JStr id)]) in
  Iam.allows (policy blog_stack) cmd = false ∧
  invoke (Deployed.blog_table denied) event t =
    (Returned (Response.mk 400 (JStr (QuoteJSONString (message (denied cmd)))) headers),
     t, [cmd]) ∧
  ∀ c, operation c ≠ DeleteByKey → Iam.table_of c = "blogdb" →
       Deployed.blog_table denied c = BlogDb.service c.
Proof.
  intros Hk Hps Hid cmd. split; [reflexivity|]. split.
  - rewrite invoke_run. unfold dispatch. rewrite Hk. simpl.
    unfold_run. rewrite (path_id event ps Hps), Hid. reflexivity.
  - intros c Hop Ht. unfold Deployed.blog_table, Iam.guarded.
    destruct c; simpl in Ht; subst; first [contradiction | reflexivity].
Qed.

(** Every request other than a DELETE is answered behind the policy as
    it is on the table: what is proved of GET and PUT on the table holds
    of the function as the stack deploys it. *)
Lemma invoke_under_policy event t :
  routing_key event ≠ "DELETE /posts/{id}" →
  invoke (Deployed.blog_table denied) event t = invoke BlogDb.service event t.
Proof.
  intros Hk. rewrite !invoke_run. unfold dispatch.
  destruct (String.eqb_spec (routing_key event) "DELETE /posts/{id}") as [?|_];
    [contradiction|].
  destruct (String.eqb (routing_key event) "GET /posts/{id}").
  2: destruct (String.eqb (routing_key event) "GET /posts").
  3: destruct (String.eqb (routing_key event) "PUT /posts").
  all: unfold_run; simpl.
  all: repeat match goal with
       | |- context [match get_prop ?v ?k with _ => _ end] =>
           destruct (get_prop v k) eqn:?; simpl
       | |- context [match JSON_parse ?x with _ => _ end] =>
           destruct (JSON_parse x) eqn:?; simpl
       end.
  all: rewrite ?blog_table_passes by (first [discriminate | reflexivity]).
  all: reflexivity.
Qed.

(** C7. As the stack deploys the function, DELETE does not do what the
    claim says.  The policy of the function's role lists no delete action,
    so for every state of the table and every id, DELETE on [/posts/{id}]
    is answered with status 400 and the message of the denial, which is
    not the confirmation, and the record stays where it was; a second
    DELETE meets the same table and gets the same answer.  On the table
    itself, were the action allowed, the same request is answered as the
    claim says: status 200, the confirmation, and the record removed. *)
Theorem delete_refused_as_deployed event t ps id :
  routing_key event = "DELETE /posts/{id}" →
  Event.pathParameters event = Some ps →
  assoc "id" ps = Some id →
  let cmd := DeleteCommand Handler.tableName (JObj [("id", JStr id)]) in
  let refusal :=
    Response.mk 400 (JStr (QuoteJSONString (message (denied cmd)))) headers in
  let confirmation :=
    Response.mk 200 (JStr (QuoteJSONString ("Deleted item " +:+ id))) headers in
  invoke (Deployed.blog_table denied) event t = (Returned refusal, t, [cmd]) ∧
  refusal ≠ confirmation ∧
  (invoke (Deployed.blog_table denied) event t).1.2 !! id = t !! id ∧
  (id ≠ "" → (BlogDb.byte_length id ≤ BlogDb.max_key_size)%Z →
   invoke BlogDb.service event t = (Returned confirmation, delete id t, [cmd])).
Proof.
  intros Hk Hps Hid cmd refusal confirmation.
  assert (H : invoke (Deployed.blog_table denied) event t = (Returned refusal, t, [cmd])).
  { rewrite invoke_run. unfold dispatch. rewrite Hk. simpl.
    unfold_run. rewrite (path_id event ps Hps), Hid. reflexivity. }
  split; [exact H|]. split; [discriminate|]. split; [now rewrite H|].
  intros Hne Hl. exact (delete_on_table event t ps id Hk Hps Hid Hne Hl).
Qed.

(** An upsert and a get under the policy are what they are on the table. *)
Lemma put_under_policy event t v i title description :
  routing_key event = "PUT /posts" →
  JSON_parse (ToString (Event.body_value event)) = inr v →
  Post.complete v i title description →
  invoke (Deployed.blog_table denied) event t =
    (Returned (respond 200 (JStr ("Put post " +:+ i))),
     <[i := Post.of_body v]> t, [PutCommand Handler.tableName (Post.of_body v)]).
Proof.
  intros Hk Hp (Hi & Ht & Hd & Hne & Hl & Hs).
  assert (Hu : v ≠ undefined) by (intros ->; discriminate Hi).
  assert (Hn : v ≠ null) by (intros ->; discriminate Hi).
  unfold Post.of_body. rewrite Hi, Ht, Hd.
  rewrite invoke_run. unfold dispatch. rewrite Hk. simpl.
  unfold_run. rewrite Hp. simpl. rewrite !get_prop_defined by assumption. simpl.
  rewrite Hi, Ht, Hd, item_literal.
  rewrite blog_table_passes by (first [discriminate | reflexivity]).
  rewrite (service_put_post t i title description Hne Hl Hs). reflexivity.
Qed.

Lemma get_under_policy event t ps id :
  routing_key event = "GET /posts/{id}" →
  Event.pathParameters event = Some ps →
  assoc "id" ps = Some id →
  id ≠ "" → (BlogDb.byte_length id ≤ BlogDb.max_key_size)%Z →
  invoke (Deployed.blog_table denied) event t =
    (Returned (respond 200 (default undefined (t !! id))), t,
     [GetCommand Handler.tableName (JObj [("id", JStr id)])]).
Proof.
  intros Hk Hps Hid Hne Hl. rewrite invoke_run. unfold dispatch. rewrite Hk. simpl.
  unfold_run. rewrite (path_id event ps Hps), Hid. simpl.
  rewrite key_literal, blog_table_passes by (first [discriminate | reflexivity]).
  rewrite (service_get t id Hne Hl).
  destruct (t !! id) as [item|]; reflexivity.
Qed.

(** X8. As deployed, DELETE does not undo an upsert.  After an upsert of a
    post that the table takes, DELETE of its id is refused under the policy
    of the blog stack (status 400, the message of the denial), the table
    still holds the record, and GET on that id still answers status 200
    with the JSON text of the record. *)
Theorem put_then_delete put del get t v i title description ps ps' :
  routing_key put = "PUT /posts" →
  JSON_parse (ToString (Event.body_value put)) = inr v →
  Post.complete v i title description →
  routing_key del = "DELETE /posts/{id}" →
  Event.pathParameters del = Some ps →
  assoc "id" ps = Some i →
  routing_key get = "GET /posts/{id}" →
  Event.pathParameters get = Some ps' →
  assoc "id" ps' = Some i →
  let cmd := DeleteCommand Handler.tableName (JObj [("id", JStr i)]) in
  let t1 := (invoke (Deployed.blog_table denied) put t).1.2 in
  t1 = <[i := Post.of_body v]> t ∧
  invoke (Deployed.blog_table denied) del t1 =
    (Returned (Response.mk 400 (JStr (QuoteJSONString (message (denied cmd)))) headers),
     t1, [cmd]) ∧
  invoke (Deployed.blog_table denied) get t1 =
    (Returned (Response.mk 200 (JStr (serialize (Post.of_body v))) headers), t1,
     [GetCommand Handler.tableName (JObj [("id", JStr i)])]).
Proof.
  intros Hk Hp Hc Hd Hps Hid Hg Hps' Hid' cmd t1. unfold t1.
  rewrite (put_under_policy put t v i title description Hk Hp Hc). simpl.
  split; [reflexivity|]. split.
  - rewrite invoke_run. unfold dispatch. rewrite Hd. simpl.
    unfold_run. rewrite (path_id del ps Hps), Hid. reflexivity.
  - destruct Hc as (_ & _ & _ & Hne & Hl & _).
    rewrite (get_under_policy get _ ps' i Hg Hps' Hid' Hne Hl), lookup_insert_eq.
    reflexivity.
Qed.

(** X17. With the table behind the policy of the blog stack no invocation
    ever removes a record: every id that has a record before an invocation
    has one after it. *)
Theorem no_record_removed_under_policy event t r t' cmds :
  invoke (Deployed.blog_table denied) event t = (Returned r, t', cmds) →
  ∀ i, is_Some (t !! i) → is_Some (t' !! i).
Proof.
  intros H i Hi. apply invoke_blog_table in H as [->|(j & item & ->)]; [exact Hi|].
  destruct (decide (j = i)) as [->|Hne].
  - rewrite lookup_insert_eq. eauto.
  - now rewrite lookup_insert_ne.
Qed.

End UnderPolicy.

(** None of the three versions of the stack allows the function to
    delete from its table, while each allows it to scan, get and put. *)
Lemma no_stack_allows_delete (st : Stack) (key item : value) :
  st ∈ [blog_stack; blog_stack_open_list; items_stack] →
  let name := tableName (table st) in
  Iam.allows (policy st) (DeleteCommand name key) = false ∧
  Iam.allows (policy st) (GetCommand name key) = true ∧
  Iam.allows (policy st) (ScanCommand name) = true ∧
  Iam.allows (policy st) (PutCommand name item) = true.
Proof.
  intros Hst.
  repeat (apply elem_of_cons in Hst as [->|Hst]); [| | |inversion Hst].
  all: repeat split; reflexivity.
Qed.

End Wiring.

(** * The further properties at concrete requests *)

Section MoreConcrete.
Import Examples MoreExamples.

Lemma table_changes_only_on_successful_write_witness :
  let r := Response.mk 200 (JStr (quoted "Deleted item 1")) headers in
  (Response.statusCode r = 400 → ∅ = one_post) ∧
  (routing_key (delete_post "1") = "GET /posts" ∨
   routing_key (delete_post "1") = "GET /posts/{id}" → ∅ = one_post) ∧
  (∅ ≠ one_post →
     Response.statusCode r = 200 ∧
     (routing_key (delete_post "1") = "DELETE /posts/{id}" ∨
      routing_key (delete_post "1") = "PUT /posts")).
Proof.
  apply (table_changes_only_on_successful_write (delete_post "1") one_post
           (Response.mk 200 (JStr (quoted "Deleted item 1")) headers) ∅
           [DeleteCommand tableName (JObj [("id", JStr "1")])]).
  reflexivity.
Defined.

Lemma one_record_touched_witness :
  ∃ i, (∀ j, j ≠ i → (∅ : gmap string value) !! j = one_post !! j) ∧
       ((∅ : gmap string value) ≠ one_post →
          [DeleteCommand tableName (JObj [("id", JStr "1")])] =
            [DeleteCommand tableName (JObj [("id", JStr i)])] ∧
          (∅ : gmap string value) !! i = None ∨
          ∃ item, [DeleteCommand tableName (JObj [("id", JStr "1")])] =
                    [PutCommand tableName item] ∧
                  property item "id" = JStr i ∧
                  (∅ : gmap string value) !! i = Some item).
Proof.
  apply (one_record_touched (delete_post "1") one_post
           (Response.mk 200 (JStr (quoted "Deleted item 1")) headers)).
  reflexivity.
Defined.

(** The body of [put_body_extra], parsed, names the post 1 completely. *)
Lemma extra_complete :
  Post.complete
    (JObj [("id", JStr "1"); ("postTitle", JStr "a");
           ("postDescription", JStr "b"); ("author", JStr "c")]) "1" "a" "b".
Proof. repeat split; try discriminate; vm_compute; discriminate. Defined.

Lemma again_complete : Post.complete (post "1" "c" "d") "1" "c" "d".
Proof. repeat split; try discriminate; vm_compute; discriminate. Defined.

Lemma put_get_round_trip_witness :
  ∃ r t1 cmds,
    invoke BlogDb.service (put_posts put_body_extra) ∅ = (Returned r, t1, cmds) ∧
    Response.statusCode r = 200 ∧
    post "1" "a" "b" = post "1" "a" "b" ∧
    invoke BlogDb.service (get_post "1") t1 =
      (Returned (Response.mk 200 (JStr (serialize (post "1" "a" "b"))) headers), t1,
       [GetCommand tableName (JObj [("id", JStr "1")])]).
Proof.
  exact (put_get_round_trip (put_posts put_body_extra) (get_post "1") ∅
           (JObj [("id", JStr "1"); ("postTitle", JStr "a");
                  ("postDescription", JStr "b"); ("author", JStr "c")])
           "1" "a" "b" [("id", "1")] eq_refl eq_refl extra_complete
           eq_refl eq_refl eq_refl).
Defined.

Lemma put_overwrites_witness :
  let t1 := (invoke BlogDb.service (put_posts put_body_extra) ∅).1.2 in
  let t2 := (invoke BlogDb.service (put_posts put_body_again) t1).1.2 in
  t2 = (invoke BlogDb.service (put_posts put_body_again) ∅).1.2 ∧
  t2 !! "1" = Some (post "1" "c" "d") ∧
  ∀ j, j ≠ "1" → t2 !! j = (∅ : gmap string value) !! j.
Proof.
  exact (put_overwrites (put_posts put_body_extra) (put_posts put_body_again) ∅
           (JObj [("id", JStr "1"); ("postTitle", JStr "a");
                  ("postDescription", JStr "b"); ("author", JStr "c")])
           (post "1" "c" "d") "1" "a" "b" "c" "d"
           eq_refl eq_refl extra_complete eq_refl eq_refl again_complete).
Defined.

Lemma put_then_delete_witness :
  let cmd := DeleteCommand tableName (JObj [("id", JStr "1")]) in
  let t1 := (invoke (Deployed.blog_table denied) (put_posts put_body_extra) ∅).1.2 in
  t1 = <["1" := post "1" "a" "b"]> ∅ ∧
  invoke (Deployed.blog_table denied) (delete_post "1") t1 =
    (Returned (Response.mk 400 (JStr (QuoteJSONString (message (denied cmd)))) headers),
     t1, [cmd]) ∧
  invoke (Deployed.blog_table denied) (get_post "1") t1 =
    (Returned (Response.mk 200 (JStr (serialize (post "1" "a" "b"))) headers), t1,
     [GetCommand tableName (JObj [("id", JStr "1")])]).
Proof.
  exact (put_then_delete denied (put_posts put_body_extra) (delete_post "1")
           (get_post "1") ∅
           (JObj [("id", JStr "1"); ("postTitle", JStr "a");
                  ("postDescription", JStr "b"); ("author", JStr "c")])
           "1" "a" "b" [("id", "1")] [("id", "1")]
           eq_refl eq_refl extra_complete eq_refl eq_refl eq_refl
           eq_refl eq_refl eq_refl).
Defined.

Lemma delete_refused_as_deployed_witness :
  let cmd := DeleteCommand tableName (JObj [("id", JStr "1")]) in
  let refusal :=
    Response.mk 400 (JStr (QuoteJSONString (message (denied cmd)))) headers in
  invoke (Deployed.blog_table denied) (delete_post "1") one_post =
    (Returned refusal, one_post, [cmd]) ∧
  one_post !! "1" = Some (post "1" "a" "b").
Proof.
  split; [|reflexivity].
  exact (proj1 (delete_refused_as_deployed denied (delete_post "1") one_post
                  [("id", "1")] "1" eq_refl eq_refl eq_refl)).
Defined.


Lemma items_path_with_id_unsupported_witness :
  ∃ s', Items.handler BlogDb.service
          (items_event "GET" "/items/7" (Some "7") None) (start ∅) =
          (Returned (Response.mk 400
             (JStr (QuoteJSONString ("Unsupported route: " +:+ quoted "GET /items/7")))
             Items.headers), s') ∧
        store s' = ∅ ∧ sent s' = [].
Proof.
  apply (items_path_with_id_unsupported BlogDb.service
           (items_event "GET" "/items/7" (Some "7") None) (start ∅) "7");
    [reflexivity | discriminate].
Defined.

Lemma items_get_returns_whole_answer_witness :
  ∃ s', Items.handler (fun _ t => (inr (JObj []), t))
          (items_event "GET" "/items/{id}" (Some "7") None) (start ∅) =
          (Returned (Response.mk 200 (JSON_stringify (JObj [])) Items.headers), s') ∧
        store s' = ∅ ∧
        sent s' = [GetCommand Items.ownTable (JObj [("id", JStr "7")])] ∧
        (JObj [] ≠ undefined → JSON_stringify (JObj []) = JStr (serialize (JObj []))).
Proof.
  apply (items_get_returns_whole_answer (fun _ t => (inr (JObj []), t))
           (items_event "GET" "/items/{id}" (Some "7") None) (start ∅)
           (GetCommand Items.ownTable (JObj [("id", JStr "7")])) (JObj []) ∅);
    [|reflexivity].
  right. exists (JStr "7"). repeat split.
Defined.

Lemma items_put_record_witness :
  let cmd := PutCommand Items.ownTable
               (JObj [("id", JStr "7"); ("price", JStr "3"); ("name", JStr "pen")]) in
  ∃ r s', Items.handler (fun _ t => (inr (JObj []), t))
            (items_event "PUT" "/items" None (Some item_body)) (start ∅) =
            (Returned r, s') ∧
    sent s' = [cmd] ∧
    store s' = ∅ ∧
    ∀ out (st' : gmap string value),
      (inr (JObj []) : Error + value, (∅ : gmap string value)) = (inr out, st') →
      r = Response.mk 200 (JStr (QuoteJSONString "Put item 7")) Items.headers.
Proof.
  apply (items_put_record (fun _ (t : gmap string value) => (inr (JObj []), t))
           (items_event "PUT" "/items" None (Some item_body)) (start ∅)
           (JObj [("id", JStr "7"); ("price", JStr "3"); ("name", JStr "pen")]));
    [reflexivity | reflexivity | discriminate].
Defined.

Lemma blog_routes_are_dispatched_witness :
  (∃ m, m ∈ Cdk.methods Cdk.blog_stack_open_list ∧
        Cdk.integration m = Cdk.LambdaIntegration ∧
        Event.httpMethod (delete_post "1") = Cdk.httpMethod m ∧
        Event.resource (delete_post "1") = Cdk.resourcePath m)
  ↔ (∃ op, assoc (routing_key (delete_post "1")) dispatch_table = Some op).
Proof.
  exact (proj1 (blog_routes_are_dispatched Cdk.blog_stack_open_list (delete_post "1")
                  (or_intror eq_refl))).
Defined.

Lemma commands_address_the_table_witness :
  ∃ r s' cmds,
    handler BlogDb.service (put_posts put_body_extra) (start ∅) = (Returned r, s') ∧
    sent s' = cmds ∧
    ∀ cmd, cmd ∈ cmds → Deployed.addresses (Cdk.table Cdk.blog_stack) cmd.
Proof.
  apply (commands_address_the_table BlogDb.service Cdk.blog_stack
           (put_posts put_body_extra) (start ∅)).
  left. reflexivity.
Defined.

Lemma delete_denied_by_policy_witness :
  let cmd := DeleteCommand tableName (JObj [("id", JStr "1")]) in
  Iam.allows (Cdk.policy Cdk.blog_stack) cmd = false ∧
  invoke (Deployed.blog_table denied) (delete_post "1") one_post =
    (Returned (Response.mk 400 (JStr (QuoteJSONString (message (denied cmd)))) headers),
     one_post, [cmd]) ∧
  ∀ c, operation c ≠ DeleteByKey → Iam.table_of c = "blogdb" →
       Deployed.blog_table denied c = BlogDb.service c.
Proof.
  apply (delete_denied_by_policy denied (delete_post "1") one_post [("id", "1")] "1");
    reflexivity.
Defined.

Lemma no_record_removed_under_policy_witness :
  is_Some (one_post !! "1") ∧
  is_Some (<["1" := post "1" "c" "d"]> one_post !! "1").
Proof.
  assert (H : is_Some (one_post !! "1")) by (eexists; reflexivity).
  split; [exact H|].
  apply (no_record_removed_under_policy denied (put_posts put_body_again) one_post
           (Response.mk 200 (JStr (quoted "Put post 1")) headers)
           (<["1" := post "1" "c" "d"]> one_post)
           [PutCommand tableName (post "1" "c" "d")] eq_refl "1" H).
Defined.

End MoreConcrete.
